(** * Forecast_2026: the filter cascade, the monthly aggregation, the seasonal
    average and the twelve-month projection of [app.py]

    The script is a straight-line pandas program.  A DataFrame is modelled as
    the list of its rows, a column as a projection of the row record, a Series
    indexed by month as an association list.  A cell of a column may be missing
    (pandas' NaN / NaT): such a cell is [None].

    Idealisations, all of them on the side of the numeric representation:
    - amounts and averages are exact rationals ([Qc]); the rounding of binary
      floating point and the wrap of 64-bit integers are not modelled: a
      total says which amounts are added, not the last digits of the result;
    - of a date only year, month and day are kept; the years that pandas can
      make a range of dates of are a parameter ([Limites]), for they depend
      on the version of the library;
    - of the storage types of the columns, that of the year and month is
      modelled (integers, or floating point when a date is missing), for the
      text of the year is what the date range is built from, and so is that
      of the amounts (integers, or floating point when a cell is empty or
      has decimals);
    - strings are compared by character code, as Python does. *)

From Stdlib Require Import List ZArith QArith Qcanon String Bool Lia.
From Stdlib Require Import Sorting.Sorted Sorting.Permutation OrdersEx.
Import ListNotations.

Set Implicit Arguments.

(* ================================================================== *)
(** * Part I. Definitions *)
(* ================================================================== *)

(** ** pandas and Python primitives *)

Section Columnas.
Variable A : Type.

(** [Series.dropna()]: the cells that are present, in order. *)
Fixpoint dropna (c : list (option A)) : list A :=
  match c with
  | [] => []
  | Some x :: t => x :: dropna t
  | None :: t => dropna t
  end.

Variable eqb : A -> A -> bool.

Definition pertenece (x : A) (l : list A) : bool := existsb (eqb x) l.

(** [Series.unique()]: first occurrences, in order of appearance.
    [vistos] holds the values already emitted. *)
Fixpoint unique_desde (vistos : list A) (c : list A) : list A :=
  match c with
  | [] => []
  | x :: t =>
      if pertenece x vistos then unique_desde vistos t
      else x :: unique_desde (x :: vistos) t
  end.

Definition unique (c : list A) : list A := unique_desde [] c.

Variable leb : A -> A -> bool.

(** [sorted(...)]: ascending, stable. *)
Fixpoint insertar (x : A) (l : list A) : list A :=
  match l with
  | [] => [x]
  | y :: t => if leb x y then x :: y :: t else y :: insertar x t
  end.

Fixpoint sorted (l : list A) : list A :=
  match l with
  | [] => []
  | x :: t => insertar x (sorted t)
  end.
End Columnas.

(** Python's order on [str]: lexicographic on character codes. *)
Definition str_leb (a b : string) : bool :=
  match String_as_OT.compare a b with Gt => false | _ => true end.

Definition str_lt (a b : string) : Prop := String_as_OT.lt a b.

(** Lexicographic order on the group key (year, month). *)
Definition clave_leb (a b : Z * Z) : bool :=
  (fst a <? fst b)%Z || ((fst a =? fst b)%Z && (snd a <=? snd b)%Z).

Definition clave_eqb (a b : Z * Z) : bool :=
  (fst a =? fst b)%Z && (snd a =? snd b)%Z.

(** [range(a, b)] *)
Definition range (a b : Z) : list Z :=
  map (fun i => (a + Z.of_nat i)%Z) (seq 0 (Z.to_nat (b - a))).

(** The sum of a numeric column; a missing cell counts for nothing
    ([skipna=True], the default of [sum]). *)
Definition suma (c : list Qc) : Qc := fold_right Qcplus 0%Qc c.

Definition de_nat (n : nat) : Qc := Q2Qc (inject_Z (Z.of_nat n)).

(** [mean()] of a group: the sum over the number of its entries. *)
Definition mean (c : list Qc) : Qc := (suma c / de_nat (List.length c))%Qc.

(** Lookup in a Series by index label. *)
Fixpoint buscar (B : Type) (i : Z) (s : list (Z * B)) : option B :=
  match s with
  | [] => None
  | (j, v) :: t => if (i =? j)%Z then Some v else buscar i t
  end.

(** [Series.reindex(idx)]: one entry per label of [idx], missing where the
    Series has none. *)
Definition reindex (idx : list Z) (s : list (Z * Qc)) : list (Z * option Qc) :=
  map (fun i => (i, buscar i s)) idx.

(** [Series.fillna(c)] *)
Definition fillna (c : Qc) (s : list (Z * option Qc)) : list (Z * Qc) :=
  map (fun e => (fst e, match snd e with Some x => x | None => c end)) s.

(** [Series.max()]: missing on an empty column. *)
Fixpoint max_serie (c : list Z) : option Z :=
  match c with
  | [] => None
  | x :: t => match max_serie t with
              | None => Some x
              | Some m => Some (Z.max x m)
              end
  end.

(** ** The data model *)

(** What a Timestamp exposes of a calendar date. *)
Record Fecha := mkFecha { year : Z; month : Z; day : Z }.

Definition fecha_lt (a b : Fecha) : Prop :=
  (year a < year b \/
   (year a = year b /\ (month a < month b \/
                        (month a = month b /\ day a < day b))))%Z.

(** A row of the file: PAIS | CLIENTE | PRODUCTO | FECHA | TOTAL VENDIDO. *)
Record Registro := mkRegistro {
  PAIS : option string;
  CLIENTE : option string;
  PRODUCTO : option string;
  FECHA : option Fecha;
  TOTAL_VENDIDO : option Qc
}.

(** A row of [df] once section 3 has added the columns Mes and Año. *)
Record Fila := mkFila {
  base : Registro;
  Mes : option Z;
  Año : option Z
}.

(** The three multiselect widgets. *)
Record Seleccion := mkSeleccion {
  sel_paises : list string;
  sel_clientes : list string;
  sel_productos : list string
}.

(** A row of [ventas_mensuales_agrupadas]. *)
Record FilaMensual := mkFilaMensual {
  m_Año : Z;
  m_Mes : Z;
  Ventas_Mensuales : Qc;
  Fecha_Mes : Fecha
}.

(** A row of [pronostico_df]. *)
Record FilaPronostico := mkFilaPronostico {
  p_Fecha_Mes : Fecha;
  p_Mes : Z;
  Pronóstico : option Qc
}.

(** ** Section 3: the derived columns *)

(** [df['Mes'] = df['FECHA'].dt.month; df['Año'] = df['FECHA'].dt.year], on
    one row: a missing date gives missing parts. *)
Definition fila (r : Registro) : Fila :=
  {| base := r;
     Mes := option_map month (FECHA r);
     Año := option_map year (FECHA r) |}.

Definition preprocesar (df : list Registro) : list Fila := map fila df.

(** ** Section 4: the cascade of option lists *)

Definition col_PAIS (f : Fila) := PAIS (base f).
Definition col_CLIENTE (f : Fila) := CLIENTE (base f).
Definition col_PRODUCTO (f : Fila) := PRODUCTO (base f).

(** [sorted(col.dropna().unique())] *)
Definition opciones (col : Fila -> option string) (d : list Fila) : list string :=
  sorted str_leb (unique String.eqb (dropna (map col d))).

(** [col.isin(valores)] on one cell; a missing cell is in no list. *)
Definition isin (v : option string) (valores : list string) : bool :=
  match v with
  | Some s => pertenece String.eqb s valores
  | None => false
  end.

(** Truth value of a list. *)
Definition hay (A : Type) (l : list A) : bool :=
  match l with [] => false | _ :: _ => true end.

(** [d[d[col].isin(sel)]] if [sel] else [d] *)
Definition restringir (col : Fila -> option string) (sel : list string)
    (d : list Fila) : list Fila :=
  if hay sel then filter (fun f => isin (col f) sel) d else d.

Definition todos_paises (df : list Fila) : list string :=
  opciones col_PAIS df.

Definition df_filtrado_pais (df : list Fila) (paises : list string) : list Fila :=
  restringir col_PAIS paises df.

Definition clientes_disponibles (df : list Fila) (paises : list string)
    : list string :=
  opciones col_CLIENTE (df_filtrado_pais df paises).

Definition df_filtrado_cliente (df : list Fila) (paises clientes : list string)
    : list Fila :=
  restringir col_CLIENTE clientes (df_filtrado_pais df paises).

Definition productos_disponibles (df : list Fila) (paises clientes : list string)
    : list string :=
  opciones col_PRODUCTO (df_filtrado_cliente df paises clientes).

(** What the three widgets offer for a given state of the selection. *)
Record Opciones := mkOpciones {
  o_paises : list string;
  o_clientes : list string;
  o_productos : list string
}.

Definition cascada (df : list Fila) (s : Seleccion) : Opciones :=
  {| o_paises := todos_paises df;
     o_clientes := clientes_disponibles df (sel_paises s);
     o_productos := productos_disponibles df (sel_paises s) (sel_clientes s) |}.

(** ** Section 5: the final filter *)

Definition df_filtrado (df : list Fila) (s : Seleccion) : list Fila :=
  restringir col_PRODUCTO (sel_productos s)
    (restringir col_CLIENTE (sel_clientes s)
       (restringir col_PAIS (sel_paises s) df)).

(** A row passes when it satisfies every selection that is not empty. *)
Definition pasa (s : Seleccion) (f : Fila) : bool :=
  (negb (hay (sel_paises s)) || isin (col_PAIS f) (sel_paises s))
  && (negb (hay (sel_clientes s)) || isin (col_CLIENTE f) (sel_clientes s))
  && (negb (hay (sel_productos s)) || isin (col_PRODUCTO f) (sel_productos s)).

(** ** Section 6 and 7: the monthly aggregation *)

(** The group key of a row; [groupby] drops a row whose key has a missing
    part ([dropna=True], its default). *)
Definition clave (f : Fila) : option (Z * Z) :=
  match Año f, Mes f with
  | Some a, Some m => Some (a, m)
  | _, _ => None
  end.

Definition en_grupo (k : Z * Z) (f : Fila) : bool :=
  match clave f with
  | Some k' => clave_eqb k k'
  | None => false
  end.

Definition importe (f : Fila) : Qc :=
  match TOTAL_VENDIDO (base f) with Some x => x | None => 0%Qc end.

Definition suma_importes (d : list Fila) : Qc := suma (map importe d).

(** The keys of the groups, ascending ([sort=True], the default). *)
Definition claves (d : list Fila) : list (Z * Z) :=
  sorted clave_leb (unique clave_eqb (dropna (map clave d))).

Definition ventas_mensuales_agrupadas (d : list Fila) : list FilaMensual :=
  map (fun k => {| m_Año := fst k;
                   m_Mes := snd k;
                   Ventas_Mensuales := suma_importes (filter (en_grupo k) d);
                   Fecha_Mes := mkFecha (fst k) (snd k) 1 |})
      (claves d).

(** ** Section 8: the historical average per calendar month *)

Definition del_mes (m : Z) (p : FilaMensual) : bool := (m_Mes p =? m)%Z.

(** [groupby('Mes')['Ventas Mensuales'].mean()] *)
Definition media_por_mes (v : list FilaMensual) : list (Z * Qc) :=
  map (fun m => (m, mean (map Ventas_Mensuales (filter (del_mes m) v))))
      (sorted Z.leb (unique Z.eqb (map m_Mes v))).

Definition promedios_por_mes (v : list FilaMensual) : list (Z * Qc) :=
  fillna 0%Qc (reindex (range 1 13) (media_por_mes v)).

(** ** Section 9: the projection on the next year *)

(** A number as Python holds it.  [dt.year] gives a column of integers when
    every date is present; when a date is missing the column is stored in
    floating point, and so is every year taken from it, in [df] and in the
    frames derived from [df]. *)
Inductive Numero :=
| entero (z : Z)
| flotante (z : Z)
| nan.

Definition presente (c : option Z) : bool :=
  match c with Some _ => true | None => false end.

(** Whether the column Año of [df] holds integers. *)
Definition columna_entera (df : list Fila) : bool :=
  forallb (fun f => presente (Año f)) df.

(** Whether a cell of TOTAL VENDIDO holds a whole number: [read_excel] gives
    a column of integers when every cell does, and a column in floating point
    when a cell is empty or has decimals. *)
Definition importe_entero (r : Registro) : bool :=
  match TOTAL_VENDIDO r with
  | Some x => (Qden (this x) =? 1)%positive
  | None => false
  end.

(** The storage types of the date parts and of the amounts of [df]: whether
    the columns Año and Mes hold integers, and whether TOTAL VENDIDO does.
    Selecting rows of [df] and grouping them changes neither: the filtered
    frame and the aggregation inherit the types of the whole file. *)
Definition tipos (df : list Fila) : bool * bool :=
  (columna_entera df, forallb (fun f => importe_entero (base f)) df).

(** [ventas_mensuales_agrupadas['Año'].max()]: missing on an empty column. *)
Definition ultimo_ano (enteros : bool) (v : list FilaMensual) : Numero :=
  match max_serie (map m_Año v) with
  | Some a => if enteros then entero a else flotante a
  | None => nan
  end.

(** [ultimo_ano + 1]; missing stays missing. *)
Definition proximo_ano (enteros : bool) (v : list FilaMensual) : Numero :=
  match ultimo_ano enteros v with
  | entero a => entero (a + 1)
  | flotante a => flotante (a + 1)
  | nan => nan
  end.

(** Months counted from year 0: the month of a date, and back the first day
    of a counted month. *)
Definition indice_mes (f : Fecha) : Z := (year f * 12 + (month f - 1))%Z.

Definition primer_dia (t : Z) : Fecha := mkFecha (t / 12) (t mod 12 + 1) 1.

(** [pd.date_range(start, end, freq='MS')]: the month starts from [start] to
    [end], both included. *)
Definition date_range_MS (inicio fin : Fecha) : list Fecha :=
  let primero := if (day inicio <=? 1)%Z then indice_mes inicio
                 else (indice_mes inicio + 1)%Z in
  map (fun i => primer_dia (primero + Z.of_nat i))
      (seq 0 (Z.to_nat (indice_mes fin - primero + 1))).

(** The years of which pandas can read the text as a date and represent every
    month start, January to December: an interval that depends on the version
    of the library (with timestamps in nanoseconds the last such year is 2261;
    with coarser units it is 9999, the last year whose text is a date). *)
Record Limites := mkLimites {
  primer_año : Z;
  ultimo_año : Z
}.

Definition en_rango (lim : Limites) (y : Z) : bool :=
  (primer_año lim <=? y)%Z && (y <=? ultimo_año lim)%Z.

(** [pd.date_range(start=f"{a}-01-01", end=f"{a}-12-01", freq='MS')].  The
    text of an integer year within the limits is a date ("2025-01-01") and the
    range is built; beyond the limits the call raises, and so it does on the
    text of a floating point year ("2025.0-01-01") or of a missing one
    ("nan-01-01"), which is not a date. *)
Definition meses_futuros (lim : Limites) (a : Numero) : option (list Fecha) :=
  match a with
  | entero y =>
      if en_rango lim y
      then Some (date_range_MS (mkFecha y 1 1) (mkFecha y 12 1))
      else None
  | flotante _ | nan => None
  end.

(** The frame built from [meses_futuros], with [Mes].map(promedios_por_mes). *)
Definition pronostico_de (promedios : list (Z * Qc)) (fechas : list Fecha)
    : list FilaPronostico :=
  map (fun d => {| p_Fecha_Mes := d;
                   p_Mes := month d;
                   Pronóstico := buscar (month d) promedios |}) fechas.

Definition pronostico_df (lim : Limites) (enteros : bool)
    (v : list FilaMensual) : option (list FilaPronostico) :=
  option_map (pronostico_de (promedios_por_mes v))
             (meses_futuros lim (proximo_ano enteros v)).

(** ** The script *)

Inductive Mensaje :=
| error_df_vacio          (* st.error: the DataFrame is empty *)
| aviso_sin_coincidencias (* st.warning: no data matches the filters *).

Record Salida := mkSalida {
  s_ventas : list FilaMensual;
  s_promedios : list (Z * Qc);
  s_pronostico : list FilaPronostico
}.

(** How a run of the script ends. *)
Inductive Resultado :=
| Alto (m : Mensaje)   (* a message, then st.stop() *)
| Excepcion            (* an exception nobody catches *)
| Listo (s : Salida).

Definition app (lim : Limites) (datos : list Registro) (s : Seleccion)
    : Resultado :=
  if negb (hay datos) then Alto error_df_vacio
  else
    let df := preprocesar datos in
    let filtrado := df_filtrado df s in
    if negb (hay filtrado) then Alto aviso_sin_coincidencias
    else
      let v := ventas_mensuales_agrupadas filtrado in
      let p := promedios_por_mes v in
      match pronostico_df lim (columna_entera df) v with
      | None => Excepcion
      | Some pr => Listo {| s_ventas := v; s_promedios := p; s_pronostico := pr |}
      end.

(** ** Vocabulary of the statements *)

(** What makes a list a well-formed option list for the column [col] over the
    rows [d]: ascending without repetition, and made of exactly the values that
    are present in [col] on some row of [d] (so never of a missing cell). *)
Definition lista_de_opciones (l : list string) (col : Fila -> option string)
    (d : list Fila) : Prop :=
  StronglySorted str_lt l /\ NoDup l /\
  forall x, In x l <-> exists f, In f d /\ col f = Some x.

Definition con_fecha (r : Registro) : bool :=
  match FECHA r with Some _ => true | None => false end.

(** The row has a complete group key. *)
Definition con_clave (f : Fila) : bool :=
  match clave f with Some _ => true | None => false end.

Definition sin_seleccion : Seleccion := mkSeleccion [] [] [].

(** What a run leaves for the tables and the chart. *)
Definition salida (r : Resultado) : option Salida :=
  match r with
  | Listo s => Some s
  | _ => None
  end.

Definition uno_a_doce : list Z := [1; 2; 3; 4; 5; 6; 7; 8; 9; 10; 11; 12]%Z.

(** The year the forecast is for: the latest year of the aggregation of the
    frame [d], plus one; none when the aggregation has no row. *)
Definition año_objetivo (d : list Fila) : option Z :=
  option_map (fun a => (a + 1)%Z)
             (max_serie (map m_Año (ventas_mensuales_agrupadas d))).


(** The rows that the totals of the aggregation of [d] are taken over, one
    group after the other. *)
Definition filas_de_los_grupos (d : list Fila) : list Fila :=
  List.concat (map (fun p => filter (en_grupo (m_Año p, m_Mes p)) d)
                   (ventas_mensuales_agrupadas d)).

(** ** Sample records *)

Definition de_Z (z : Z) : Qc := Q2Qc (inject_Z z).

Definition venta (pais cliente producto : string) (a m d : Z) (total : Z)
    : Registro :=
  {| PAIS := Some pais; CLIENTE := Some cliente; PRODUCTO := Some producto;
     FECHA := Some (mkFecha a m d); TOTAL_VENDIDO := Some (de_Z total) |}.

(** Three sales of one client in January of two years. *)
Definition tres_ventas : list Registro :=
  [venta "US" "A" "X" 2023 1 15 100;
   venta "US" "A" "X" 2023 1 20 50;
   venta "US" "A" "X" 2024 1 10 300].

(** A sale whose date cell is empty in the file. *)
Definition venta_sin_fecha : Registro :=
  {| PAIS := Some "US"%string; CLIENTE := Some "A"%string;
     PRODUCTO := Some "X"%string;
     FECHA := None; TOTAL_VENDIDO := Some (de_Z 5) |}.

(** A sale with neither country nor date. *)
Definition venta_sin_pais_ni_fecha : Registro :=
  {| PAIS := None; CLIENTE := Some "A"%string; PRODUCTO := Some "X"%string;
     FECHA := None; TOTAL_VENDIDO := Some (de_Z 7) |}.

(** A dated sale without country. *)
Definition venta_sin_pais : Registro :=
  {| PAIS := None; CLIENTE := Some "A"%string; PRODUCTO := Some "X"%string;
     FECHA := Some (mkFecha 2024 3 9); TOTAL_VENDIDO := Some (de_Z 40) |}.




(** The years of timestamps kept in nanoseconds: those that hold a first of
    January and a first of December between 1677-09-21 and 2262-04-11. *)
Definition limites_ns : Limites := mkLimites 1678 2261.


Definition solo_US : Seleccion := mkSeleccion ["US"%string] [] [].

Definition US_cliente_B : Seleccion :=
  mkSeleccion ["US"%string] ["B"%string] [].

(** ** Section 10 and the detail tables *)

(** The dictionary [mes_a_texto]. *)
Definition mes_a_texto : list (Z * string) :=
  [(1, "Enero"); (2, "Febrero"); (3, "Marzo"); (4, "Abril");
   (5, "Mayo"); (6, "Junio"); (7, "Julio"); (8, "Agosto");
   (9, "Septiembre"); (10, "Octubre"); (11, "Noviembre");
   (12, "Diciembre")]%Z%string.

(** [Series.map(mes_a_texto)] on one cell: missing when the number is not a
    key of the dictionary. *)
Definition nombre_mes (m : Z) : option string := buscar m mes_a_texto.

(** A row of [tabla_promedios]: Mes | Promedio Vendido. *)
Record FilaPromedio := mkFilaPromedio {
  t_Mes : option string;
  Promedio_Vendido : Qc
}.

(** [promedios_por_mes.reset_index()], the columns renamed and the month
    numbers mapped to their names. *)
Definition tabla_promedios (promedios : list (Z * Qc)) : list FilaPromedio :=
  map (fun e => {| t_Mes := nombre_mes (fst e); Promedio_Vendido := snd e |})
      promedios.

(** A row of [detalle_historico] while it carries the column MesNumero. *)
Record FilaDetalleNum := mkFilaDetalleNum {
  dn_Año : Z;
  dn_Mes : option string;
  dn_Totales : Qc;
  dn_MesNumero : Z
}.

(** A row of [detalle_historico] as shown: Año | Mes | Ventas Mensuales
    Totales. *)
Record FilaDetalle := mkFilaDetalle {
  d_Año : Z;
  d_Mes : option string;
  Ventas_Mensuales_Totales : Qc
}.

(** The order of [sort_values(['Año', 'MesNumero'])]. *)
Definition detalle_leb (a b : FilaDetalleNum) : bool :=
  clave_leb (dn_Año a, dn_MesNumero a) (dn_Año b, dn_MesNumero b).

(** The historical detail: the three columns copied, the month mapped to its
    name, MesNumero taken from the aggregation, the rows sorted by year and
    month number, MesNumero dropped. *)
Definition detalle_historico (v : list FilaMensual) : list FilaDetalle :=
  map (fun r => {| d_Año := dn_Año r; d_Mes := dn_Mes r;
                   Ventas_Mensuales_Totales := dn_Totales r |})
      (sorted detalle_leb
         (map (fun p => {| dn_Año := m_Año p;
                           dn_Mes := nombre_mes (m_Mes p);
                           dn_Totales := Ventas_Mensuales p;
                           dn_MesNumero := m_Mes p |}) v)).





(** ** Vocabulary of the further statements *)

(** The strict order of the group keys: by year, then by month. *)
Definition clave_lt (a b : Z * Z) : Prop :=
  (fst a < fst b \/ (fst a = fst b /\ snd a < snd b))%Z.

(** The row has a country. *)
Definition con_pais (f : Fila) : bool :=
  match col_PAIS f with Some _ => true | None => false end.

(** A selection made of values that the widgets offer. *)
Definition ofrecida (df : list Fila) (s : Seleccion) : Prop :=
  incl (sel_paises s) (o_paises (cascada df s)) /\
  incl (sel_clientes s) (o_clientes (cascada df s)) /\
  incl (sel_productos s) (o_productos (cascada df s)).

(** Two selections that hold the same values, whatever their order. *)
Definition mismos_valores (s s' : Seleccion) : Prop :=
  (forall x, In x (sel_paises s) <-> In x (sel_paises s')) /\
  (forall x, In x (sel_clientes s) <-> In x (sel_clientes s')) /\
  (forall x, In x (sel_productos s) <-> In x (sel_productos s')).

Definition nombres_de_meses : list string :=
  ["Enero"; "Febrero"; "Marzo"; "Abril"; "Mayo"; "Junio"; "Julio"; "Agosto";
   "Septiembre"; "Octubre"; "Noviembre"; "Diciembre"]%string.

(** A sale of Mexico, dated. *)
Definition venta_MX : Registro := venta "MX" "C" "Y" 2024 2 3 80.

(** A dated sale whose amount cell is empty. *)
Definition venta_sin_importe : Registro :=
  {| PAIS := Some "US"%string; CLIENTE := Some "A"%string;
     PRODUCTO := Some "X"%string;
     FECHA := Some (mkFecha 2024 1 5); TOTAL_VENDIDO := None |}.

(** The same values picked in two different ways. *)
Definition US_y_MX : Seleccion :=
  mkSeleccion ["US"; "MX"]%string ["A"; "C"]%string [].

Definition MX_y_US_repetidos : Seleccion :=
  mkSeleccion ["MX"; "US"; "MX"]%string ["C"; "A"; "A"]%string [].

(* ================================================================== *)
(** * Part II. Properties *)
(* ================================================================== *)

(** ** Columns: dropna, unique, sorted *)

Lemma dropna_In (A : Type) (c : list (option A)) (x : A) :
  In x (dropna c) <-> In (Some x) c.
Proof.
  induction c as [|[y|] t IH]; simpl.
  - tauto.
  - rewrite IH. split; intros [H|H]; auto; left; congruence.
  - rewrite IH. split; [auto | intros [H|H]; [discriminate | exact H]].
Qed.

Lemma dropna_app (A : Type) (c1 c2 : list (option A)) :
  dropna (c1 ++ c2) = dropna c1 ++ dropna c2.
Proof.
  induction c1 as [|[y|] t IH]; simpl; auto. now rewrite IH.
Qed.

Section Unicos.
Variable A : Type.
Variable eqb : A -> A -> bool.
Hypothesis eqb_ok : forall x y, eqb x y = true <-> x = y.

Lemma pertenece_In (x : A) (l : list A) : pertenece eqb x l = true <-> In x l.
Proof.
  unfold pertenece. rewrite existsb_exists. split.
  - intros [y [Hy He]]. apply eqb_ok in He. now subst.
  - intros H. exists x. split; [exact H | now apply eqb_ok].
Qed.

Lemma unique_desde_In (c vistos : list A) (x : A) :
  In x (unique_desde eqb vistos c) <-> In x c /\ ~ In x vistos.
Proof.
  revert vistos. induction c as [|y t IH]; intros vistos; simpl.
  - tauto.
  - destruct (pertenece eqb y vistos) eqn:E.
    + apply pertenece_In in E. rewrite IH. split.
      * tauto.
      * intros [[H|H] Hn]; [subst; contradiction | tauto].
    + assert (Hy : ~ In y vistos).
      { intro H. apply pertenece_In in H. congruence. }
      simpl. rewrite IH. simpl. split.
      * intros [H|[H Hn]]; [subst; tauto | tauto].
      * intros [[H|H] Hn]; [tauto |].
        destruct (pertenece eqb y [x]) eqn:Ex.
        -- apply pertenece_In in Ex. destruct Ex as [Ex|[]]. now left.
        -- right. split; [exact H |]. intros [Hx|Hx]; [|tauto].
           subst. simpl in Ex. rewrite orb_false_r in Ex.
           assert (eqb x x = true) by now apply eqb_ok. congruence.
Qed.

Lemma unique_desde_NoDup (c vistos : list A) : NoDup (unique_desde eqb vistos c).
Proof.
  revert vistos. induction c as [|y t IH]; intros vistos; simpl.
  - constructor.
  - destruct (pertenece eqb y vistos); [apply IH |].
    constructor; [| apply IH].
    rewrite unique_desde_In. simpl. tauto.
Qed.

Lemma unique_In (c : list A) (x : A) : In x (unique eqb c) <-> In x c.
Proof. unfold unique. rewrite unique_desde_In. simpl. tauto. Qed.

Lemma unique_NoDup (c : list A) : NoDup (unique eqb c).
Proof. apply unique_desde_NoDup. Qed.
End Unicos.

Section Ordenados.
Variable A : Type.
Variable leb : A -> A -> bool.

Lemma insertar_perm (x : A) (l : list A) : Permutation (insertar leb x l) (x :: l).
Proof.
  induction l as [|y t IH]; simpl; [reflexivity |].
  destruct (leb x y); [reflexivity |].
  rewrite IH. apply perm_swap.
Qed.

Lemma sorted_perm (l : list A) : Permutation (sorted leb l) l.
Proof.
  induction l as [|x t IH]; simpl; [reflexivity |].
  rewrite insertar_perm. now constructor.
Qed.

Lemma sorted_In (l : list A) (x : A) : In x (sorted leb l) <-> In x l.
Proof.
  split; apply Permutation_in; [| symmetry]; apply sorted_perm.
Qed.

Lemma sorted_NoDup (l : list A) : NoDup l -> NoDup (sorted leb l).
Proof.
  apply Permutation_NoDup. symmetry. apply sorted_perm.
Qed.

Hypothesis leb_total : forall x y, leb x y = true \/ leb y x = true.
Hypothesis leb_trans : forall x y z, leb x y = true -> leb y z = true -> leb x z = true.

Lemma insertar_ordenado (x : A) (l : list A) :
  StronglySorted (fun a b => leb a b = true) l ->
  StronglySorted (fun a b => leb a b = true) (insertar leb x l).
Proof.
  induction 1 as [|y t Hs IH Hy]; simpl.
  - repeat constructor.
  - destruct (leb x y) eqn:E.
    + constructor; [now constructor |].
      constructor; [exact E |].
      eapply Forall_impl; [| exact Hy]. intros z Hz. eapply leb_trans; eauto.
    + constructor; [exact IH |].
      eapply Permutation_Forall; [symmetry; apply insertar_perm |].
      constructor; [| exact Hy].
      destruct (leb_total x y) as [H|H]; [congruence | exact H].
Qed.

Lemma sorted_ordenado (l : list A) :
  StronglySorted (fun a b => leb a b = true) (sorted leb l).
Proof.
  induction l as [|x t IH]; simpl; [constructor | now apply insertar_ordenado].
Qed.
End Ordenados.

(** An ordered list without repetitions is strictly ordered. *)
Lemma ordenado_estricto (A : Type) (R : A -> A -> Prop) (l : list A) :
  StronglySorted R l -> NoDup l ->
  StronglySorted (fun x y => R x y /\ x <> y) l.
Proof.
  induction 1 as [|x t Hs IH Hx]; intros Hn; [constructor |].
  inversion Hn as [|? ? Hnotin Hnt]; subst.
  constructor; [now apply IH |].
  rewrite Forall_forall in *. intros y Hy. split; [now apply Hx |].
  intros ->. contradiction.
Qed.

Lemma StronglySorted_impl (A : Type) (R S : A -> A -> Prop) (l : list A) :
  (forall x y, R x y -> S x y) -> StronglySorted R l -> StronglySorted S l.
Proof.
  intros HRS. induction 1 as [|x t Hs IH Hx]; constructor; auto.
  eapply Forall_impl; [| exact Hx]. auto.
Qed.

(** ** The orders on strings and on group keys *)

Lemma str_leb_total (x y : string) : str_leb x y = true \/ str_leb y x = true.
Proof.
  unfold str_leb.
  destruct (String_as_OT.compare_spec x y) as [H|H|H]; auto.
  right. unfold String_as_OT.lt in H. now rewrite H.
Qed.

Lemma str_leb_cases (x y : string) : str_leb x y = true <-> x = y \/ str_lt x y.
Proof.
  unfold str_leb, str_lt.
  destruct (String_as_OT.compare_spec x y) as [H|H|H].
  - split; auto.
  - split; auto.
  - split; [discriminate |]. intros [E|L].
    + subst. exfalso. exact (StrictOrder_Irreflexive _ H).
    + exfalso. apply (StrictOrder_Irreflexive x).
      exact (StrictOrder_Transitive _ _ _ L H).
Qed.

Lemma str_leb_trans (x y z : string) :
  str_leb x y = true -> str_leb y z = true -> str_leb x z = true.
Proof.
  rewrite !str_leb_cases. intros [->|H1] [->|H2]; auto.
  right. exact (StrictOrder_Transitive _ _ _ H1 H2).
Qed.

Lemma clave_eqb_ok (a b : Z * Z) : clave_eqb a b = true <-> a = b.
Proof.
  destruct a as [a1 a2], b as [b1 b2]. unfold clave_eqb. simpl.
  rewrite andb_true_iff, !Z.eqb_eq. split.
  - intros [-> ->]. reflexivity.
  - intros H. injection H. auto.
Qed.

Lemma clave_eqb_refl (a : Z * Z) : clave_eqb a a = true.
Proof. now apply clave_eqb_ok. Qed.

(** ** Section 4: the option lists *)

Lemma restringir_vacia (col : Fila -> option string) (d : list Fila) :
  restringir col [] d = d.
Proof. reflexivity. Qed.

Lemma restringir_In (col : Fila -> option string) (sel : list string)
    (d : list Fila) (f : Fila) :
  In f (restringir col sel d) <->
  In f d /\ (sel = [] \/ isin (col f) sel = true).
Proof.
  unfold restringir. destruct sel as [|v t]; simpl hay; cbv iota.
  - split; [auto | tauto].
  - rewrite filter_In. split; intros [H1 H2]; split; auto.
    destruct H2 as [H2|H2]; [discriminate | exact H2].
Qed.

Lemma opciones_In (col : Fila -> option string) (d : list Fila) (x : string) :
  In x (opciones col d) <-> exists f, In f d /\ col f = Some x.
Proof.
  unfold opciones.
  rewrite sorted_In, (unique_In String.eqb String.eqb_eq), dropna_In, in_map_iff.
  split; intros [f [H1 H2]]; exists f; auto.
Qed.

Lemma opciones_NoDup (col : Fila -> option string) (d : list Fila) :
  NoDup (opciones col d).
Proof.
  unfold opciones. apply sorted_NoDup, unique_NoDup, String.eqb_eq.
Qed.

Lemma opciones_ordenadas (col : Fila -> option string) (d : list Fila) :
  StronglySorted str_lt (opciones col d).
Proof.
  apply StronglySorted_impl
    with (R := fun x y => str_leb x y = true /\ x <> y).
  - intros x y [H1 H2]. apply str_leb_cases in H1. tauto.
  - apply ordenado_estricto; [| apply opciones_NoDup].
    unfold opciones. apply sorted_ordenado.
    + exact str_leb_total.
    + exact str_leb_trans.
Qed.

(** A row whose cell is missing adds nothing to the option list. *)
Lemma opciones_sin_nulo (col : Fila -> option string) (d1 d2 : list Fila)
    (f : Fila) :
  col f = None -> opciones col (d1 ++ f :: d2) = opciones col (d1 ++ d2).
Proof.
  intros H. unfold opciones.
  rewrite !map_app, !dropna_app. simpl. now rewrite H.
Qed.

Lemma opciones_bien_formadas (col : Fila -> option string) (d : list Fila) :
  lista_de_opciones (opciones col d) col d.
Proof.
  split; [apply opciones_ordenadas |].
  split; [apply opciones_NoDup |].
  intros x. apply opciones_In.
Qed.

(** C3. The cascade follows the order country, client, product: the country
    list comes from the whole frame and is the same under any two selections;
    the client list does not change when the client and product selections
    do, and is the option list of the rows passing the country selection (all
    rows when it is empty); the product list does not change when the product
    selection does, and is the option list of the rows passing the country and
    the client selections; each list is ascending, without repetition, and
    holds only values present in its column. *)
Theorem cascada_orden_de_dependencia (df : list Fila) (s s' : Seleccion)
    (c' p' : list string) :
  o_paises (cascada df s) = o_paises (cascada df s') /\
  lista_de_opciones (o_paises (cascada df s)) col_PAIS df /\
  o_clientes (cascada df s)
    = o_clientes (cascada df (mkSeleccion (sel_paises s) c' p')) /\
  lista_de_opciones (o_clientes (cascada df s)) col_CLIENTE
    (if hay (sel_paises s)
     then filter (fun f => isin (col_PAIS f) (sel_paises s)) df
     else df) /\
  o_productos (cascada df s)
    = o_productos (cascada df (mkSeleccion (sel_paises s) (sel_clientes s) p')) /\
  lista_de_opciones (o_productos (cascada df s)) col_PRODUCTO
    (let d := if hay (sel_paises s)
              then filter (fun f => isin (col_PAIS f) (sel_paises s)) df
              else df in
     if hay (sel_clientes s)
     then filter (fun f => isin (col_CLIENTE f) (sel_clientes s)) d
     else d).
Proof.
  repeat split; try reflexivity; apply opciones_bien_formadas.
Qed.

(** ** Section 5: the filter *)

Lemma filter_todo (A : Type) (d : list A) : filter (fun _ => true) d = d.
Proof. induction d as [|x t IH]; simpl; congruence. Qed.

Lemma filter_filter (A : Type) (p q : A -> bool) (d : list A) :
  filter q (filter p d) = filter (fun x => p x && q x) d.
Proof.
  induction d as [|x t IH]; simpl; [reflexivity |].
  destruct (p x); simpl; [destruct (q x) |]; now rewrite IH.
Qed.

Lemma restringir_es_filter (col : Fila -> option string) (sel : list string)
    (d : list Fila) :
  restringir col sel d = filter (fun f => negb (hay sel) || isin (col f) sel) d.
Proof.
  unfold restringir. destruct (hay sel); simpl; [reflexivity |].
  symmetry. apply filter_todo.
Qed.

Lemma df_filtrado_es_filter (df : list Fila) (s : Seleccion) :
  df_filtrado df s = filter (pasa s) df.
Proof.
  unfold df_filtrado. rewrite !restringir_es_filter, !filter_filter.
  apply filter_ext. intros f. unfold pasa. now rewrite andb_assoc.
Qed.

Lemma base_preprocesar (datos : list Registro) :
  map base (preprocesar datos) = datos.
Proof.
  unfold preprocesar. rewrite map_map. apply map_id.
Qed.

(** C6. With the three selections empty the filter returns the full record
    set unchanged: the frame it returns is the frame it was given, and its
    rows carry the loaded records, in the same order and with the same
    values. *)
Theorem df_filtrado_sin_seleccion (datos : list Registro) :
  df_filtrado (preprocesar datos) sin_seleccion = preprocesar datos /\
  map base (df_filtrado (preprocesar datos) sin_seleccion) = datos.
Proof.
  split; [reflexivity |]. apply base_preprocesar.
Qed.


(** ** Section 6: the monthly aggregation *)

Lemma suma_app (c1 c2 : list Qc) : suma (c1 ++ c2) = (suma c1 + suma c2)%Qc.
Proof.
  induction c1 as [|x t IH]; simpl.
  - now rewrite Qcplus_0_l.
  - rewrite IH. apply Qcplus_assoc.
Qed.

(** Over keys without repetition, a row is in the group of its own key and in
    no other. *)
Lemma grupos_de_una_fila (ks : list (Z * Z)) (f : Fila) :
  NoDup ks ->
  (forall k, clave f = Some k -> In k ks) ->
  List.concat (map (fun k => if en_grupo k f then [f] else []) ks)
  = if con_clave f then [f] else [].
Proof.
  unfold en_grupo, con_clave. destruct (clave f) as [k0|].
  - intros Hn Hin. specialize (Hin k0 eq_refl).
    induction ks as [|k t IH]; [destruct Hin |].
    inversion Hn as [|? ? Hk Ht]; subst. simpl.
    destruct Hin as [->|Hin].
    + rewrite clave_eqb_refl. simpl. f_equal.
      clear IH Ht Hn. induction t as [|k t IH]; [reflexivity |]. simpl.
      destruct (clave_eqb k k0) eqn:E.
      * apply clave_eqb_ok in E. subst. exfalso. apply Hk. now left.
      * apply IH. intros H. apply Hk. now right.
    + destruct (clave_eqb k k0) eqn:E.
      * apply clave_eqb_ok in E. subst. contradiction.
      * simpl. apply (IH Ht Hin).
  - intros _ _. induction ks as [|k t IH]; [reflexivity | exact IH].
Qed.

Lemma grupos_con_una_fila_mas (ks : list (Z * Z)) (f : Fila) (d : list Fila) :
  Permutation
    (List.concat (map (fun k => filter (en_grupo k) (f :: d)) ks))
    (List.concat (map (fun k => if en_grupo k f then [f] else []) ks)
     ++ List.concat (map (fun k => filter (en_grupo k) d) ks)).
Proof.
  induction ks as [|k t IH]; simpl; [constructor |].
  destruct (en_grupo k f); simpl.
  - constructor. rewrite IH.
    rewrite !app_assoc. apply Permutation_app_tail, Permutation_app_comm.
  - rewrite IH.
    rewrite !app_assoc. apply Permutation_app_tail, Permutation_app_comm.
Qed.

(** The groups of the keys split the rows that have a key: each of them is in
    one group, once. *)
Lemma grupos_por_claves (ks : list (Z * Z)) (d : list Fila) :
  NoDup ks ->
  (forall f k, In f d -> clave f = Some k -> In k ks) ->
  Permutation (List.concat (map (fun k => filter (en_grupo k) d) ks))
              (filter con_clave d).
Proof.
  intros Hn. induction d as [|f t IH]; intros Hin.
  - clear Hn Hin. induction ks as [|k ks IH]; [constructor | exact IH].
  - rewrite grupos_con_una_fila_mas.
    rewrite grupos_de_una_fila
      by (auto; intros k Hk; apply (Hin f); simpl; auto).
    simpl. destruct (con_clave f); simpl.
    + constructor. apply IH. intros g k Hg. apply Hin. now right.
    + apply IH. intros g k Hg. apply Hin. now right.
Qed.

Lemma claves_In (d : list Fila) (k : Z * Z) :
  In k (claves d) <-> exists f, In f d /\ clave f = Some k.
Proof.
  unfold claves.
  rewrite sorted_In, (unique_In clave_eqb clave_eqb_ok), dropna_In, in_map_iff.
  split; intros [f [H1 H2]]; exists f; auto.
Qed.

Lemma claves_NoDup (d : list Fila) : NoDup (claves d).
Proof.
  unfold claves. apply sorted_NoDup, unique_NoDup, clave_eqb_ok.
Qed.

Lemma ventas_claves (d : list Fila) :
  map (fun p => (m_Año p, m_Mes p)) (ventas_mensuales_agrupadas d) = claves d.
Proof.
  unfold ventas_mensuales_agrupadas. rewrite map_map. simpl.
  rewrite <- (map_id (claves d)) at 2. apply map_ext. now intros [a m].
Qed.

Lemma clave_fila (r : Registro) :
  clave (fila r) = option_map (fun d => (year d, month d)) (FECHA r).
Proof. unfold clave, fila. simpl. now destruct (FECHA r). Qed.

Lemma con_clave_fila (r : Registro) : con_clave (fila r) = con_fecha r.
Proof. unfold con_clave, con_fecha. rewrite clave_fila. now destruct (FECHA r). Qed.

Lemma fila_base (datos : list Registro) (f : Fila) :
  In f (preprocesar datos) -> f = fila (base f).
Proof.
  unfold preprocesar. rewrite in_map_iff. intros [r [<- _]]. reflexivity.
Qed.

Lemma df_filtrado_incl (df : list Fila) (s : Seleccion) (f : Fila) :
  In f (df_filtrado df s) -> In f df.
Proof. rewrite df_filtrado_es_filter, filter_In. tauto. Qed.

Lemma sin_clave_sin_grupo (f : Fila) (k : Z * Z) :
  clave f = None -> en_grupo k f = false.
Proof. unfold en_grupo. now intros ->. Qed.

Lemma filas_de_los_grupos_claves (d : list Fila) :
  filas_de_los_grupos d
  = List.concat (map (fun k => filter (en_grupo k) d) (claves d)).
Proof.
  unfold filas_de_los_grupos. rewrite <- ventas_claves, map_map. reflexivity.
Qed.

(** C4, as the code has it. No two groups have the same (year, month); the
    total of a group is the sum of the amounts of its own rows, taken in the
    order of the file; the rows of the groups together are the filtered
    records that have a date, each of them once; and a filtered record whose
    date is missing is in no group ([groupby] leaves it out). *)
Theorem ventas_mensuales_conservan (datos : list Registro) (s : Seleccion) :
  let d := df_filtrado (preprocesar datos) s in
  let v := ventas_mensuales_agrupadas d in
  NoDup (map (fun p => (m_Año p, m_Mes p)) v) /\
  Forall (fun p => Ventas_Mensuales p
                   = suma_importes (filter (en_grupo (m_Año p, m_Mes p)) d)) v /\
  Permutation (filas_de_los_grupos d)
              (filter (fun f => con_fecha (base f)) d) /\
  Forall (fun f => con_fecha (base f) = false ->
                   ~ In f (filas_de_los_grupos d)) d.
Proof.
  intros d v.
  assert (Hc : forall f, In f d -> con_clave f = con_fecha (base f)).
  { intros f Hf. apply df_filtrado_incl in Hf.
    rewrite (fila_base _ _ Hf) at 1. apply con_clave_fila. }
  split; [unfold v; rewrite ventas_claves; apply claves_NoDup |].
  split.
  { apply Forall_forall. intros p Hp.
    unfold v, ventas_mensuales_agrupadas in Hp. apply in_map_iff in Hp.
    destruct Hp as [[a m] [<- _]]. reflexivity. }
  split.
  { rewrite filas_de_los_grupos_claves.
    rewrite <- (filter_ext_in _ _ _ Hc).
    apply grupos_por_claves; [apply claves_NoDup |].
    intros f k Hf Hk. apply claves_In. eauto. }
  apply Forall_forall. intros f Hf Hsin Hin.
  rewrite <- (Hc f Hf) in Hsin. unfold con_clave in Hsin.
  rewrite filas_de_los_grupos_claves in Hin. apply in_concat in Hin.
  destruct Hin as [l [Hl Hfl]]. apply in_map_iff in Hl.
  destruct Hl as [k [<- _]]. apply filter_In in Hfl. destruct Hfl as [_ Hg].
  destruct (clave f) eqn:E; [discriminate |].
  now rewrite (@sin_clave_sin_grupo f k E) in Hg.
Qed.

(** ** Section 8: the seasonal average *)

Lemma buscar_tabla (B : Type) (g : Z -> B) (l : list Z) (i : Z) :
  buscar i (map (fun m => (m, g m)) l)
  = if pertenece Z.eqb i l then Some (g i) else None.
Proof.
  induction l as [|m t IH]; simpl; [reflexivity |].
  destruct (Z.eqb_spec i m) as [->|Hne]; simpl; [reflexivity | exact IH].
Qed.

Lemma range_1_13 : range 1 13 = uno_a_doce.
Proof. reflexivity. Qed.

Lemma promedios_tabla (v : list FilaMensual) :
  promedios_por_mes v
  = map (fun m => (m, match buscar m (media_por_mes v) with
                      | Some x => x
                      | None => 0%Qc
                      end)) uno_a_doce.
Proof.
  unfold promedios_por_mes, fillna, reindex.
  rewrite map_map, range_1_13. reflexivity.
Qed.

Lemma uno_a_doce_In (m : Z) : In m uno_a_doce <-> (1 <= m <= 12)%Z.
Proof. unfold uno_a_doce. simpl. lia. Qed.

Lemma promedios_indice (v : list FilaMensual) :
  map fst (promedios_por_mes v) = uno_a_doce.
Proof. rewrite promedios_tabla, map_map. apply map_id. Qed.

Lemma filter_vacio (A : Type) (p : A -> bool) (l : list A) :
  filter p l = [] <-> forall x, In x l -> p x = false.
Proof.
  induction l as [|y t IH]; simpl.
  - split; [intros _ x [] | reflexivity].
  - destruct (p y) eqn:E.
    + split; [discriminate |]. intros H.
      specialize (H y (or_introl eq_refl)). congruence.
    + rewrite IH. split.
      * intros H x [<-|Hx]; auto.
      * intros H x Hx. apply H. now right.
Qed.

Lemma media_buscar (v : list FilaMensual) (m : Z) :
  buscar m (media_por_mes v)
  = match filter (del_mes m) v with
    | [] => None
    | g => Some (mean (map Ventas_Mensuales g))
    end.
Proof.
  unfold media_por_mes. rewrite buscar_tabla.
  destruct (pertenece Z.eqb m (sorted Z.leb (unique Z.eqb (map m_Mes v)))) eqn:E.
  - apply (pertenece_In Z.eqb Z.eqb_eq) in E.
    rewrite sorted_In, (unique_In Z.eqb Z.eqb_eq), in_map_iff in E.
    destruct E as [p [Hp Hin]].
    destruct (filter (del_mes m) v) eqn:F; [| reflexivity].
    rewrite filter_vacio in F. specialize (F p Hin).
    unfold del_mes in F. rewrite Hp, Z.eqb_refl in F. discriminate.
  - destruct (filter (del_mes m) v) as [|p g] eqn:F; [reflexivity |].
    assert (Hp : In p (filter (del_mes m) v)) by (rewrite F; now left).
    apply filter_In in Hp. destruct Hp as [Hin Hm].
    unfold del_mes in Hm. apply Z.eqb_eq in Hm.
    assert (In m (sorted Z.leb (unique Z.eqb (map m_Mes v)))) as H.
    { rewrite sorted_In, (unique_In Z.eqb Z.eqb_eq), in_map_iff. eauto. }
    apply (pertenece_In Z.eqb Z.eqb_eq) in H. congruence.
Qed.

Lemma promedio_buscar (v : list FilaMensual) (m : Z) :
  (1 <= m <= 12)%Z ->
  buscar m (promedios_por_mes v)
  = Some match filter (del_mes m) v with
         | [] => 0%Qc
         | g => mean (map Ventas_Mensuales g)
         end.
Proof.
  intros Hm. rewrite promedios_tabla, buscar_tabla.
  apply uno_a_doce_In, (pertenece_In Z.eqb Z.eqb_eq) in Hm. rewrite Hm.
  rewrite media_buscar. now destruct (filter (del_mes m) v).
Qed.

(** Among totals with distinct (year, month), those of one month have
    distinct years. *)
Lemma del_mes_distintos (v : list FilaMensual) (m : Z) :
  NoDup (map (fun p => (m_Año p, m_Mes p)) v) ->
  NoDup (map m_Año (filter (del_mes m) v)).
Proof.
  induction v as [|x t IH]; simpl; intros Hn; [constructor |].
  inversion Hn as [|? ? Hx Ht]; subst.
  destruct (del_mes m x) eqn:Ex; simpl; [| now apply IH].
  constructor; [| now apply IH].
  rewrite in_map_iff. intros [y [Hy Hin]]. apply Hx.
  apply filter_In in Hin. destruct Hin as [Hin Ey].
  unfold del_mes in Ex, Ey. apply Z.eqb_eq in Ex, Ey.
  apply in_map_iff. exists y. split; [| exact Hin]. congruence.
Qed.

Lemma ventas_In (d : list Fila) (p : FilaMensual) :
  In p (ventas_mensuales_agrupadas d) ->
  In (m_Año p, m_Mes p) (claves d) /\
  Ventas_Mensuales p
  = suma_importes (filter (en_grupo (m_Año p, m_Mes p)) d) /\
  Fecha_Mes p = mkFecha (m_Año p) (m_Mes p) 1.
Proof.
  unfold ventas_mensuales_agrupadas. rewrite in_map_iff.
  intros [[a m] [<- Hk]]. simpl. auto.
Qed.

(** C2. For a calendar month m of 1..12, the years that have a total for m in
    the aggregated data are distinct, and they are the years in which some
    filtered record falls in month m; with k such years the average of m is
    the sum of their k totals divided by k when k >= 1, and 0 when k = 0; the
    averages are indexed by 1..12, every month once. *)
Theorem promedio_de_cada_mes (d : list Fila) (m : Z) :
  (1 <= m <= 12)%Z ->
  let v := ventas_mensuales_agrupadas d in
  let g := filter (del_mes m) v in
  let k := List.length g in
  NoDup (map m_Año g) /\
  (forall a, In a (map m_Año g) <-> exists f, In f d /\ clave f = Some (a, m)) /\
  (k = 0%nat -> buscar m (promedios_por_mes v) = Some 0%Qc) /\
  ((1 <= k)%nat ->
   buscar m (promedios_por_mes v)
   = Some (suma (map Ventas_Mensuales g) / de_nat k)%Qc) /\
  map fst (promedios_por_mes v) = uno_a_doce.
Proof.
  intros Hm v g k.
  assert (Hg : forall p, In p g <-> In p v /\ m_Mes p = m).
  { intros p. unfold g. rewrite filter_In. unfold del_mes.
    now rewrite Z.eqb_eq. }
  split; [| split; [| split; [| split]]].
  - apply del_mes_distintos. unfold v. rewrite ventas_claves.
    apply claves_NoDup.
  - intros a. split.
    + rewrite in_map_iff. intros [p [<- Hp]]. apply Hg in Hp.
      destruct Hp as [Hp <-]. apply ventas_In in Hp.
      now apply claves_In.
    + intros H. apply claves_In in H. rewrite <- ventas_claves in H.
      apply in_map_iff in H. destruct H as [p [E Hp]].
      injection E as Ea Em. apply in_map_iff. exists p. split; [exact Ea |].
      apply Hg. auto.
  - intros Hk. rewrite promedio_buscar by exact Hm. fold v. fold g.
    destruct g; [reflexivity | discriminate].
  - intros Hk. rewrite promedio_buscar by exact Hm. fold v. fold g.
    destruct g eqn:E; [simpl in k; unfold k in Hk; simpl in Hk; lia |].
    unfold mean, k. now rewrite length_map.
  - apply promedios_indice.
Qed.

(** ** Section 9: the projection *)

Lemma max_serie_ok (c : list Z) :
  c <> [] ->
  exists a, max_serie c = Some a /\ In a c /\ Forall (fun x => (x <= a)%Z) c.
Proof.
  induction c as [|x t IH]; [congruence |]. intros _. simpl.
  destruct t as [|y t'].
  - simpl. exists x. repeat split; auto. constructor; [lia | constructor].
  - destruct IH as [m [Hm [Hin Hall]]]; [discriminate |].
    rewrite Hm. exists (Z.max x m). split; [reflexivity |]. split.
    + destruct (Z.max_spec x m) as [[_ ->]|[_ ->]]; [right | left]; auto.
    + constructor; [lia |].
      eapply Forall_impl; [| exact Hall]. simpl. intros z Hz. lia.
Qed.

Lemma primer_dia_del_ano (y i : Z) :
  (0 <= i < 12)%Z -> primer_dia (y * 12 + i) = mkFecha y (i + 1) 1.
Proof.
  intros Hi. unfold primer_dia.
  rewrite Z.div_add_l, Z.div_small by lia.
  rewrite (Z.add_comm (y * 12) i), Z.mod_add, Z.mod_small by lia.
  f_equal. lia.
Qed.

(** The range from the first of January to the first of December of a year is
    the first day of each of its twelve months. *)
Lemma date_range_del_ano (y : Z) :
  date_range_MS (mkFecha y 1 1) (mkFecha y 12 1)
  = map (fun m => mkFecha y m 1) uno_a_doce.
Proof.
  unfold date_range_MS, indice_mes. cbn [year month day].
  change (1 <=? 1)%Z with true. cbv iota.
  replace (y * 12 + (12 - 1) - (y * 12 + (1 - 1)) + 1)%Z with 12%Z by lia.
  replace (y * 12 + (1 - 1))%Z with (y * 12)%Z by lia.
  change (Z.to_nat 12) with 12%nat. cbn [seq map uno_a_doce].
  rewrite Z.add_0_r.
  replace (y * 12)%Z with (y * 12 + 0)%Z at 1 by lia.
  rewrite !primer_dia_del_ano by (cbn; lia).
  reflexivity.
Qed.


Lemma pronostico_df_con_ano (lim : Limites) (v : list FilaMensual) (a : Z) :
  ultimo_ano true v = entero a ->
  en_rango lim (a + 1) = true ->
  pronostico_df lim true v
  = Some (map (fun m => {| p_Fecha_Mes := mkFecha (a + 1) m 1;
                           p_Mes := m;
                           Pronóstico := buscar m (promedios_por_mes v) |})
              uno_a_doce).
Proof.
  intros H Hr. unfold pronostico_df, proximo_ano. rewrite H.
  cbn [meses_futuros]. rewrite Hr. cbn [option_map].
  rewrite date_range_del_ano.
  unfold pronostico_de. now rewrite map_map.
Qed.

(** A target year beyond the limits gives no forecast. *)
Lemma pronostico_df_fuera_de_rango (lim : Limites) (v : list FilaMensual)
    (a : Z) :
  ultimo_ano true v = entero a ->
  en_rango lim (a + 1) = false ->
  pronostico_df lim true v = None.
Proof.
  intros H Hr. unfold pronostico_df, proximo_ano. rewrite H.
  cbn [meses_futuros]. now rewrite Hr.
Qed.

(** A year column in floating point never gives a forecast. *)
Lemma pronostico_df_flotante (lim : Limites) (v : list FilaMensual) :
  pronostico_df lim false v = None.
Proof.
  unfold pronostico_df, proximo_ano, ultimo_ano.
  now destruct (max_serie (map m_Año v)).
Qed.

Lemma pronostico_df_sin_ano (lim : Limites) (enteros : bool) :
  pronostico_df lim enteros [] = None.
Proof. reflexivity. Qed.

Lemma año_objetivo_del_maximo (d : list Fila) (a : Z) :
  max_serie (map m_Año (ventas_mensuales_agrupadas d)) = Some a ->
  año_objetivo d = Some (a + 1)%Z.
Proof. unfold año_objetivo. now intros ->. Qed.

Lemma columna_entera_fechas (datos : list Registro) :
  columna_entera (preprocesar datos) = forallb con_fecha datos.
Proof.
  unfold columna_entera, preprocesar. induction datos as [|r t IH];
    [reflexivity |].
  simpl. rewrite IH. f_equal. unfold con_fecha. now destruct (FECHA r).
Qed.

Lemma ventas_vacias (d : list Fila) :
  ventas_mensuales_agrupadas d = [] <-> forall f, In f d -> clave f = None.
Proof.
  split.
  - intros H f Hf. destruct (clave f) as [k|] eqn:E; [| reflexivity].
    assert (Hk : In k (claves d)) by (apply claves_In; eauto).
    rewrite <- ventas_claves, H in Hk. destruct Hk.
  - intros H. destruct (ventas_mensuales_agrupadas d) as [|p t] eqn:E;
      [reflexivity |].
    assert (Hp : In (m_Año p, m_Mes p) (claves d)).
    { rewrite <- ventas_claves, E. now left. }
    apply claves_In in Hp. destruct Hp as [f [Hf Hk]].
    rewrite (H f Hf) in Hk. discriminate.
Qed.

Lemma app_filtrado (lim : Limites) (datos : list Registro) (s : Seleccion) :
  df_filtrado (preprocesar datos) s <> [] ->
  app lim datos s
  = let v := ventas_mensuales_agrupadas (df_filtrado (preprocesar datos) s) in
    match pronostico_df lim (columna_entera (preprocesar datos)) v with
    | None => Excepcion
    | Some pr => Listo (mkSalida v (promedios_por_mes v) pr)
    end.
Proof.
  intros H. unfold app.
  destruct datos as [|r t];
    [exfalso; apply H; now rewrite df_filtrado_es_filter |].
  cbn [hay negb]. cbv zeta.
  destruct (df_filtrado (preprocesar (r :: t)) s); [congruence | reflexivity].
Qed.


(** ** The two halts of the script *)

Lemma app_filtro_vacio (lim : Limites) (datos : list Registro)
    (s : Seleccion) :
  df_filtrado (preprocesar datos) s = [] ->
  app lim datos s
  = Alto (if hay datos then aviso_sin_coincidencias else error_df_vacio).
Proof.
  intros H. unfold app. destruct datos as [|r t]; [reflexivity |].
  cbn [hay negb]. cbv zeta. now rewrite H.
Qed.

(** C5. When the filter leaves no row the run stops on a message (the warning
    that nothing matches the filters; the error of the empty DataFrame when
    nothing was loaded at all) and leaves no aggregation, no average and no
    forecast. *)
Theorem filtro_vacio_detiene (lim : Limites) (datos : list Registro)
    (s : Seleccion) :
  df_filtrado (preprocesar datos) s = [] ->
  app lim datos s
  = Alto (if hay datos then aviso_sin_coincidencias else error_df_vacio) /\
  salida (app lim datos s) = None.
Proof.
  intros H. rewrite (app_filtro_vacio lim _ _ H). split; reflexivity.
Qed.

(** ** Records without a date *)

(** One missing date anywhere in the file is enough: the years are then
    floating point numbers and no date range can be built from their text. *)
Lemma app_con_fecha_ausente (lim : Limites) (datos : list Registro)
    (s : Seleccion) :
  forallb con_fecha datos = false ->
  df_filtrado (preprocesar datos) s <> [] ->
  app lim datos s = Excepcion.
Proof.
  intros Hf Hne. rewrite app_filtrado by exact Hne. cbv zeta.
  now rewrite columna_entera_fechas, Hf, pronostico_df_flotante.
Qed.

(** C7, as the code has it. On a filtered set that is not empty and holds no
    date there is no guard: the aggregation has no group, the latest year and
    the target year are missing, the date range cannot be built, and the run
    ends in an exception instead of a halt; no forecast point is produced. *)
Theorem sin_fechas_no_hay_guarda (lim : Limites) (datos : list Registro)
    (s : Seleccion) :
  df_filtrado (preprocesar datos) s <> [] ->
  Forall (fun f => con_fecha (base f) = false)
         (df_filtrado (preprocesar datos) s) ->
  let v := ventas_mensuales_agrupadas (df_filtrado (preprocesar datos) s) in
  let enteros := columna_entera (preprocesar datos) in
  v = [] /\
  ultimo_ano enteros v = nan /\
  proximo_ano enteros v = nan /\
  meses_futuros lim (proximo_ano enteros v) = None /\
  app lim datos s = Excepcion /\
  salida (app lim datos s) = None.
Proof.
  intros Hne Hsin v enteros.
  assert (Hv : v = []).
  { unfold v. apply ventas_vacias. intros f Hf.
    rewrite Forall_forall in Hsin. specialize (Hsin f Hf).
    apply df_filtrado_incl in Hf. rewrite (fila_base _ _ Hf).
    rewrite <- con_clave_fila in Hsin. unfold con_clave in Hsin.
    destruct (clave (fila (base f))); [discriminate | reflexivity]. }
  assert (Happ : app lim datos s = Excepcion).
  { rewrite app_filtrado by exact Hne. fold v. cbv zeta. now rewrite Hv. }
  rewrite Happ, Hv. repeat split.
Qed.

(** ** Records with a missing category *)

Lemma opciones_filter_sin_nulo (col : Fila -> option string) (p : Fila -> bool)
    (d1 d2 : list Fila) (f : Fila) :
  col f = None ->
  opciones col (filter p (d1 ++ f :: d2)) = opciones col (filter p (d1 ++ d2)).
Proof.
  intros H. rewrite !filter_app. simpl. destruct (p f); [| reflexivity].
  now apply opciones_sin_nulo.
Qed.

Lemma preprocesar_app (d1 d2 : list Registro) (r : Registro) :
  preprocesar (d1 ++ r :: d2) = preprocesar d1 ++ fila r :: preprocesar d2.
Proof. unfold preprocesar. now rewrite map_app. Qed.

Lemma preprocesar_app2 (d1 d2 : list Registro) :
  preprocesar (d1 ++ d2) = preprocesar d1 ++ preprocesar d2.
Proof. unfold preprocesar. now rewrite map_app. Qed.

Lemma suma_importes_app (d1 d2 : list Fila) :
  suma_importes (d1 ++ d2) = (suma_importes d1 + suma_importes d2)%Qc.
Proof. unfold suma_importes. rewrite map_app. apply suma_app. Qed.

Lemma en_grupo_propio (f : Fila) (k : Z * Z) :
  clave f = Some k -> en_grupo k f = true.
Proof. unfold en_grupo. intros ->. apply clave_eqb_refl. Qed.

(** C8, as the code has it. The three option lists hold only values that
    are present in their column on some row.  A record whose country (client,
    product) is missing adds nothing to the country (client, product) option
    list: the list is the one of the record set without it.  If the record has a date
    and satisfies every selection that is not empty, the total of its (year,
    month) group is its amount plus the amounts of the other filtered records
    of that group.  With no selection at all every record satisfies the
    filter. *)
Theorem nulos_en_categorias (d1 d2 : list Registro) (r : Registro)
    (s : Seleccion) :
  let df := preprocesar (d1 ++ r :: d2) in
  let resto := preprocesar (d1 ++ d2) in
  Forall (fun x => exists f, In f df /\ col_PAIS f = Some x)
         (o_paises (cascada df s)) /\
  Forall (fun x => exists f, In f df /\ col_CLIENTE f = Some x)
         (o_clientes (cascada df s)) /\
  Forall (fun x => exists f, In f df /\ col_PRODUCTO f = Some x)
         (o_productos (cascada df s)) /\
  (PAIS r = None -> o_paises (cascada df s) = o_paises (cascada resto s)) /\
  (CLIENTE r = None ->
   o_clientes (cascada df s) = o_clientes (cascada resto s)) /\
  (PRODUCTO r = None ->
   o_productos (cascada df s) = o_productos (cascada resto s)) /\
  (forall fe : Fecha,
     FECHA r = Some fe -> pasa s (fila r) = true ->
     exists p,
       In p (ventas_mensuales_agrupadas (df_filtrado df s)) /\
       m_Año p = year fe /\ m_Mes p = month fe /\
       Ventas_Mensuales p
       = (importe (fila r)
          + suma_importes (filter (en_grupo (year fe, month fe))
                                  (df_filtrado resto s)))%Qc) /\
  pasa sin_seleccion (fila r) = true.
Proof.
  intros df resto.
  split; [| split; [| split]].
  - apply Forall_forall. intros x Hx. now apply opciones_In in Hx.
  - apply Forall_forall. intros x Hx. apply opciones_In in Hx.
    destruct Hx as [f [Hf Hc]]. apply restringir_In in Hf. exists f. tauto.
  - apply Forall_forall. intros x Hx. apply opciones_In in Hx.
    destruct Hx as [f [Hf Hc]]. apply restringir_In in Hf.
    destruct Hf as [Hf _]. apply restringir_In in Hf. exists f. tauto.
  - unfold df, resto. rewrite preprocesar_app, preprocesar_app2.
    split; [| split; [| split; [| split]]].
    + intros H. cbn [cascada o_paises]. unfold todos_paises.
      now apply opciones_sin_nulo.
    + intros H. cbn [cascada o_clientes].
      unfold clientes_disponibles, df_filtrado_pais.
      rewrite !restringir_es_filter. now apply opciones_filter_sin_nulo.
    + intros H. cbn [cascada o_productos].
      unfold productos_disponibles, df_filtrado_cliente, df_filtrado_pais.
      rewrite !restringir_es_filter, !filter_filter.
      now apply opciones_filter_sin_nulo.
    + intros fe Hfe Hpasa.
      set (k := (year fe, month fe)).
      assert (Hk : clave (fila r) = Some k).
      { rewrite clave_fila, Hfe. reflexivity. }
      set (F := df_filtrado (preprocesar d1 ++ fila r :: preprocesar d2) s).
      assert (HF : F = filter (pasa s) (preprocesar d1)
                       ++ fila r :: filter (pasa s) (preprocesar d2)).
      { unfold F. rewrite df_filtrado_es_filter, filter_app. simpl.
        now rewrite Hpasa. }
      assert (Hin : In k (claves F)).
      { apply claves_In. exists (fila r). split; [| exact Hk].
        rewrite HF. apply in_or_app. right. now left. }
      rewrite <- ventas_claves in Hin. apply in_map_iff in Hin.
      destruct Hin as [p [Ep Hp]]. exists p. split; [exact Hp |].
      injection Ep as Ea Em. split; [exact Ea |]. split; [exact Em |].
      destruct (ventas_In _ _ Hp) as [_ [Hv _]]. rewrite Hv, Ea, Em. fold k.
      rewrite HF, df_filtrado_es_filter, !filter_app. simpl.
      rewrite (en_grupo_propio _ Hk), !suma_importes_app.
      unfold suma_importes at 2. simpl. fold (suma_importes
        (filter (en_grupo k) (filter (pasa s) (preprocesar d2)))). ring.
    + reflexivity.
Qed.

(** ** The derived columns leave the records as they are *)

Lemma map_base_filter (p : Fila -> bool) (datos : list Registro) :
  map base (filter p (preprocesar datos)) = filter (fun r => p (fila r)) datos.
Proof.
  induction datos as [|r t IH]; simpl; [reflexivity |].
  destruct (p (fila r)); simpl; now rewrite IH.
Qed.

(** C9. Section 3 adds the month and the year of each date and nothing else:
    the rows of [df] carry the loaded records, all of them, in order, with the
    five fields as loaded; and the rows that the filter hands to the later
    stages are loaded records too, unchanged. *)
Theorem preprocesar_conserva_registros (datos : list Registro) (s : Seleccion) :
  map base (preprocesar datos) = datos /\
  List.length (preprocesar datos) = List.length datos /\
  Forall (fun f => Mes f = option_map month (FECHA (base f)) /\
                   Año f = option_map year (FECHA (base f)))
         (preprocesar datos) /\
  map base (df_filtrado (preprocesar datos) s)
  = filter (fun r => pasa s (fila r)) datos.
Proof.
  split; [apply base_preprocesar |].
  split; [apply length_map |].
  split.
  - apply Forall_forall. intros f Hf. rewrite (fila_base _ _ Hf). auto.
  - rewrite df_filtrado_es_filter. apply map_base_filter.
Qed.

(** ** Records that the filter excludes *)




(** ** The script on the sample records *)

(** The three sales, no selection: January 2023 totals 150, January 2024
    totals 300; the average of January is 225 and of every other month 0; the
    forecast is for 2025. *)
Example tres_ventas_agrupadas :
  map (fun p => (m_Año p, m_Mes p, this (Ventas_Mensuales p), Fecha_Mes p))
      (ventas_mensuales_agrupadas
         (df_filtrado (preprocesar tres_ventas) sin_seleccion))
  = [(2023, 1, 150 # 1, mkFecha 2023 1 1);
     (2024, 1, 300 # 1, mkFecha 2024 1 1)]%Z.
Proof. vm_compute. reflexivity. Qed.

Example tres_ventas_pronostico :
  option_map
    (fun sal => map (fun p => (p_Fecha_Mes p, option_map this (Pronóstico p)))
                    (s_pronostico sal))
    (salida (app limites_ns tres_ventas sin_seleccion))
  = Some [(mkFecha 2025 1 1, Some (225 # 1)); (mkFecha 2025 2 1, Some (0 # 1));
          (mkFecha 2025 3 1, Some (0 # 1)); (mkFecha 2025 4 1, Some (0 # 1));
          (mkFecha 2025 5 1, Some (0 # 1)); (mkFecha 2025 6 1, Some (0 # 1));
          (mkFecha 2025 7 1, Some (0 # 1)); (mkFecha 2025 8 1, Some (0 # 1));
          (mkFecha 2025 9 1, Some (0 # 1)); (mkFecha 2025 10 1, Some (0 # 1));
          (mkFecha 2025 11 1, Some (0 # 1)); (mkFecha 2025 12 1, Some (0 # 1))].
Proof. vm_compute. reflexivity. Qed.

Example tres_ventas_opciones :
  cascada (preprocesar tres_ventas) solo_US
  = mkOpciones ["US"%string] ["A"%string] ["X"%string].
Proof. reflexivity. Qed.


(** C4, counterexample. One dated sale of 100 and one sale of 5 without date,
    no selection: the only group totals 100 while the filtered amounts add up
    to 105. *)
Lemma conservacion_falla_sin_fecha :
  let d := df_filtrado (preprocesar [venta "US" "A" "X" 2023 1 15 100;
                                     venta_sin_fecha]) sin_seleccion in
  suma (map Ventas_Mensuales (ventas_mensuales_agrupadas d))
  <> suma_importes d.
Proof.
  intros d H. apply (f_equal this) in H. vm_compute in H. discriminate.
Qed.

(** C7, counterexample. One sale without date, no selection: the filtered set
    is not empty and holds no date, yet the run is not stopped by any of the
    script's halts, and the target year was computed (as a missing value). *)
Lemma sin_fechas_no_es_un_alto :
  df_filtrado (preprocesar [venta_sin_fecha]) sin_seleccion <> [] /\
  Forall (fun f => con_fecha (base f) = false)
         (df_filtrado (preprocesar [venta_sin_fecha]) sin_seleccion) /\
  proximo_ano (columna_entera (preprocesar [venta_sin_fecha]))
              (ventas_mensuales_agrupadas
                 (df_filtrado (preprocesar [venta_sin_fecha]) sin_seleccion))
  = nan /\
  ~ exists m, app limites_ns [venta_sin_fecha] sin_seleccion = Alto m.
Proof.
  split; [discriminate |].
  split; [repeat constructor |].
  split; [reflexivity |].
  intros [m H]. vm_compute in H. discriminate.
Qed.

(** C8, counterexample. A sale of 7 with neither country nor date, no
    selection: it satisfies the filter, and no total of the monthly
    aggregation includes its amount, for there is no group at all. *)
Lemma importe_sin_fecha_no_se_suma :
  PAIS venta_sin_pais_ni_fecha = None /\
  pasa sin_seleccion (fila venta_sin_pais_ni_fecha) = true /\
  In (fila venta_sin_pais_ni_fecha)
     (df_filtrado (preprocesar [venta_sin_pais_ni_fecha]) sin_seleccion) /\
  ventas_mensuales_agrupadas
    (df_filtrado (preprocesar [venta_sin_pais_ni_fecha]) sin_seleccion) = [].
Proof.
  split; [reflexivity |]. split; [reflexivity |].
  split; [now left | reflexivity].
Qed.


(** Witnesses: the theorems at the sample records. *)


Lemma promedio_de_cada_mes_testigo :
  (1 <= 1 <= 12)%Z /\
  let v := ventas_mensuales_agrupadas (preprocesar tres_ventas) in
  buscar 1%Z (promedios_por_mes v)
  = Some (suma (map Ventas_Mensuales (filter (del_mes 1) v)) / de_nat 2)%Qc.
Proof.
  assert (H : (1 <= 1 <= 12)%Z) by lia.
  split; [exact H |].
  destruct (@promedio_de_cada_mes (preprocesar tres_ventas) 1 H)
    as [_ [_ [_ [Hk _]]]].
  apply Hk. vm_compute. repeat constructor.
Defined.

Lemma filtro_vacio_detiene_testigo :
  df_filtrado (preprocesar tres_ventas) US_cliente_B = [] /\
  app limites_ns tres_ventas US_cliente_B = Alto aviso_sin_coincidencias.
Proof.
  assert (H : df_filtrado (preprocesar tres_ventas) US_cliente_B = [])
    by reflexivity.
  split; [exact H |].
  exact (proj1 (@filtro_vacio_detiene limites_ns tres_ventas US_cliente_B H)).
Defined.

Lemma sin_fechas_no_hay_guarda_testigo :
  df_filtrado (preprocesar [venta_sin_fecha]) sin_seleccion <> [] /\
  Forall (fun f => con_fecha (base f) = false)
         (df_filtrado (preprocesar [venta_sin_fecha]) sin_seleccion) /\
  app limites_ns [venta_sin_fecha] sin_seleccion = Excepcion.
Proof.
  assert (H1 : df_filtrado (preprocesar [venta_sin_fecha]) sin_seleccion <> [])
    by discriminate.
  assert (H2 : Forall (fun f => con_fecha (base f) = false)
                 (df_filtrado (preprocesar [venta_sin_fecha]) sin_seleccion))
    by (repeat constructor).
  split; [exact H1 |]. split; [exact H2 |].
  destruct (@sin_fechas_no_hay_guarda limites_ns [venta_sin_fecha]
              sin_seleccion H1 H2)
    as [_ [_ [_ [_ [Happ _]]]]].
  exact Happ.
Defined.

Lemma nulos_en_categorias_testigo :
  PAIS venta_sin_pais = None /\
  pasa sin_seleccion (fila venta_sin_pais) = true /\
  o_paises (cascada (preprocesar (tres_ventas ++ [venta_sin_pais]))
                    sin_seleccion)
  = o_paises (cascada (preprocesar (tres_ventas ++ [])) sin_seleccion) /\
  exists p,
    In p (ventas_mensuales_agrupadas
            (df_filtrado (preprocesar (tres_ventas ++ [venta_sin_pais]))
                         sin_seleccion)) /\
    m_Año p = 2024%Z /\ m_Mes p = 3%Z.
Proof.
  assert (Hn : PAIS venta_sin_pais = None) by reflexivity.
  assert (Hp : pasa sin_seleccion (fila venta_sin_pais) = true) by reflexivity.
  split; [exact Hn |]. split; [exact Hp |].
  destruct (@nulos_en_categorias tres_ventas [] venta_sin_pais sin_seleccion)
    as [_ [_ [_ [Hpais [_ [_ [Hsuma _]]]]]]].
  split; [exact (Hpais Hn) |].
  destruct (Hsuma (mkFecha 2024 3 9) eq_refl Hp) as [p [Hin [Ha [Hm _]]]].
  exists p. auto.
Defined.


(* ================================================================== *)
(** * Part III. Further properties of the script *)
(* ================================================================== *)

(** ** The filter *)

Lemma isin_In (v : option string) (sel : list string) :
  isin v sel = true <-> exists x, v = Some x /\ In x sel.
Proof.
  unfold isin. destruct v as [x|].
  - rewrite (pertenece_In String.eqb String.eqb_eq). split.
    + intros H. exists x. auto.
    + intros [y [E H]]. injection E as ->. exact H.
  - split; [discriminate | intros [x [E _]]; discriminate].
Qed.

Lemma hay_vacia (A : Type) (l : list A) : hay l = false <-> l = [].
Proof. destruct l; simpl; split; congruence. Qed.

Lemma pasa_dimension (col : Fila -> option string) (sel : list string)
    (f : Fila) :
  negb (hay sel) || isin (col f) sel = true <->
  sel = [] \/ exists x, col f = Some x /\ In x sel.
Proof.
  rewrite orb_true_iff, negb_true_iff, hay_vacia, isin_In. tauto.
Qed.

(** X1. The filter keeps exactly the rows of the frame that satisfy every
    selection that is not empty: a row is kept when, for each of country,
    client and product, nothing is selected or the row's value is present and
    is one of the selected values.  The rows kept stay in the order of the
    frame. *)
Theorem df_filtrado_pertenencia (df : list Fila) (s : Seleccion) (f : Fila) :
  (In f (df_filtrado df s) <->
   In f df /\
   (sel_paises s = [] \/
    exists x, col_PAIS f = Some x /\ In x (sel_paises s)) /\
   (sel_clientes s = [] \/
    exists x, col_CLIENTE f = Some x /\ In x (sel_clientes s)) /\
   (sel_productos s = [] \/
    exists x, col_PRODUCTO f = Some x /\ In x (sel_productos s))) /\
  df_filtrado df s = filter (pasa s) df.
Proof.
  split; [| apply df_filtrado_es_filter].
  rewrite df_filtrado_es_filter, filter_In. unfold pasa.
  rewrite !andb_true_iff, !pasa_dimension. tauto.
Qed.

Lemma filter_conmuta (A : Type) (p q : A -> bool) (d : list A) :
  filter q (filter p d) = filter p (filter q d).
Proof.
  rewrite !filter_filter. apply filter_ext. intros x. apply andb_comm.
Qed.

Lemma filter_length_le (A : Type) (p : A -> bool) (d : list A) :
  (List.length (filter p d) <= List.length d)%nat.
Proof.
  induction d as [|x t IH]; simpl; [lia |]. destruct (p x); simpl; lia.
Qed.

(** X2. Filtering again with the same selection changes nothing, two
    selections can be applied one after the other in either order, and the
    filter never returns more rows than it was given. *)
Theorem df_filtrado_compone (df : list Fila) (s s' : Seleccion) :
  df_filtrado (df_filtrado df s) s = df_filtrado df s /\
  df_filtrado (df_filtrado df s) s' = df_filtrado (df_filtrado df s') s /\
  (List.length (df_filtrado df s) <= List.length df)%nat.
Proof.
  rewrite !df_filtrado_es_filter. split; [| split].
  - rewrite filter_filter. apply filter_ext. intros f. apply andb_diag.
  - apply filter_conmuta.
  - apply filter_length_le.
Qed.

Lemma isin_mismos (v : option string) (l l' : list string) :
  (forall x, In x l <-> In x l') -> isin v l = isin v l'.
Proof.
  intros H. apply eq_true_iff_eq. rewrite !isin_In.
  split; intros [x [E Hx]]; exists x; split; auto; now apply H.
Qed.

Lemma hay_mismos (A : Type) (l l' : list A) :
  (forall x, In x l <-> In x l') -> hay l = hay l'.
Proof.
  intros H. destruct l as [|a t], l' as [|b t']; try reflexivity.
  - exfalso. apply (proj2 (H b)). now left.
  - exfalso. apply (proj1 (H a)). now left.
Qed.

(** X3. The filter depends on which values are selected, not on the order
    in which they were picked nor on repetitions: two selections holding the
    same values give the same filtered frame and the same option lists. *)
Theorem df_filtrado_mismos_valores (df : list Fila) (s s' : Seleccion) :
  mismos_valores s s' ->
  df_filtrado df s = df_filtrado df s' /\
  cascada df s = cascada df s'.
Proof.
  intros [Hp [Hc Hr]].
  assert (Ep : forall d, restringir col_PAIS (sel_paises s) d
                         = restringir col_PAIS (sel_paises s') d).
  { intros d. rewrite !restringir_es_filter. apply filter_ext. intros f.
    now rewrite (@hay_mismos _ _ _ Hp), (@isin_mismos _ _ _ Hp). }
  assert (Ec : forall d, restringir col_CLIENTE (sel_clientes s) d
                         = restringir col_CLIENTE (sel_clientes s') d).
  { intros d. rewrite !restringir_es_filter. apply filter_ext. intros f.
    now rewrite (@hay_mismos _ _ _ Hc), (@isin_mismos _ _ _ Hc). }
  assert (Er : forall d, restringir col_PRODUCTO (sel_productos s) d
                         = restringir col_PRODUCTO (sel_productos s') d).
  { intros d. rewrite !restringir_es_filter. apply filter_ext. intros f.
    now rewrite (@hay_mismos _ _ _ Hr), (@isin_mismos _ _ _ Hr). }
  split.
  - unfold df_filtrado. now rewrite Ep, Ec, Er.
  - unfold cascada, clientes_disponibles, productos_disponibles,
      df_filtrado_cliente, df_filtrado_pais. now rewrite Ep, Ec.
Qed.

Lemma df_filtrado_mismos_valores_testigo :
  mismos_valores US_y_MX MX_y_US_repetidos /\
  df_filtrado (preprocesar (venta_MX :: tres_ventas)) US_y_MX
  = df_filtrado (preprocesar (venta_MX :: tres_ventas)) MX_y_US_repetidos.
Proof.
  assert (H : mismos_valores US_y_MX MX_y_US_repetidos).
  { unfold mismos_valores. simpl. repeat split; tauto. }
  split; [exact H |].
  exact (proj1 (@df_filtrado_mismos_valores
                  (preprocesar (venta_MX :: tres_ventas)) _ _ H)).
Defined.

(** ** How a run ends *)



Lemma app_completo (lim : Limites) (datos : list Registro) (s : Seleccion) :
  forallb con_fecha datos = true ->
  df_filtrado (preprocesar datos) s <> [] ->
  exists a,
    max_serie (map m_Año (ventas_mensuales_agrupadas
                            (df_filtrado (preprocesar datos) s))) = Some a /\
    app lim datos s
    = let v := ventas_mensuales_agrupadas (df_filtrado (preprocesar datos) s) in
      if en_rango lim (a + 1)
      then Listo (mkSalida v (promedios_por_mes v)
                    (map (fun m => {| p_Fecha_Mes := mkFecha (a + 1) m 1;
                                      p_Mes := m;
                                      Pronóstico :=
                                        buscar m (promedios_por_mes v) |})
                         uno_a_doce))
      else Excepcion.
Proof.
  intros Hf Hne.
  set (v := ventas_mensuales_agrupadas (df_filtrado (preprocesar datos) s)).
  assert (Hv : map m_Año v <> []).
  { intros E. apply map_eq_nil in E. unfold v in E.
    rewrite ventas_vacias in E.
    destruct (df_filtrado (preprocesar datos) s) as [|f t] eqn:F;
      [congruence |].
    assert (Hin : In f (preprocesar datos)).
    { apply df_filtrado_incl with (s := s). rewrite F. now left. }
    specialize (E f (or_introl eq_refl)).
    unfold preprocesar in Hin. apply in_map_iff in Hin.
    destruct Hin as [r [<- Hr]].
    rewrite forallb_forall in Hf. specialize (Hf r Hr).
    rewrite <- con_clave_fila in Hf. unfold con_clave in Hf.
    rewrite E in Hf. discriminate. }
  destruct (max_serie_ok Hv) as [a [Ha _]].
  exists a. split; [exact Ha |].
  rewrite app_filtrado by exact Hne. fold v. cbv zeta.
  rewrite columna_entera_fechas, Hf.
  assert (Hu : ultimo_ano true v = entero a)
    by (unfold ultimo_ano; now rewrite Ha).
  destruct (en_rango lim (a + 1)) eqn:Hr.
  - now rewrite (pronostico_df_con_ano lim v Hu Hr).
  - now rewrite (pronostico_df_fuera_de_rango lim v Hu Hr).
Qed.


(** The ways a run can end, with what decides each of them. *)
Lemma app_casos (lim : Limites) (datos : list Registro) (s : Seleccion) :
  (datos = [] /\ app lim datos s = Alto error_df_vacio) \/
  (datos <> [] /\ df_filtrado (preprocesar datos) s = [] /\
   app lim datos s = Alto aviso_sin_coincidencias) \/
  (df_filtrado (preprocesar datos) s <> [] /\
   forallb con_fecha datos = false /\ app lim datos s = Excepcion) \/
  (df_filtrado (preprocesar datos) s <> [] /\
   forallb con_fecha datos = true /\
   (exists y, año_objetivo (df_filtrado (preprocesar datos) s) = Some y /\
              en_rango lim y = false) /\
   app lim datos s = Excepcion) \/
  (df_filtrado (preprocesar datos) s <> [] /\
   forallb con_fecha datos = true /\
   (exists y, año_objetivo (df_filtrado (preprocesar datos) s) = Some y /\
              en_rango lim y = true) /\
   exists sal, app lim datos s = Listo sal).
Proof.
  destruct datos as [|r t]; [left; split; reflexivity |]. right.
  destruct (df_filtrado (preprocesar (r :: t)) s) as [|f l] eqn:F.
  - left. split; [discriminate |]. split; [reflexivity |].
    now rewrite (app_filtro_vacio lim _ _ F).
  - right. rewrite <- F.
    assert (Hne : df_filtrado (preprocesar (r :: t)) s <> [])
      by (rewrite F; discriminate).
    destruct (forallb con_fecha (r :: t)) eqn:E.
    + right. destruct (app_completo lim _ s E Hne) as [a [Hm Ha]].
      cbv zeta in Ha. apply año_objetivo_del_maximo in Hm.
      destruct (en_rango lim (a + 1)) eqn:Hr; [right | left];
        (split; [exact Hne |]); (split; [reflexivity |]); eauto.
    + left. split; [exact Hne |]. split; [reflexivity |].
      now apply app_con_fecha_ausente.
Qed.

(** X4. The two halts of the script tell the two ways of having no data
    apart: the run ends on the error of the empty DataFrame exactly when
    nothing was loaded, whatever is selected, and on the warning that nothing
    matches the filters exactly when something was loaded and the filter left
    no row. *)
Theorem altos_del_script (lim : Limites) (datos : list Registro)
    (s : Seleccion) :
  (app lim datos s = Alto error_df_vacio <-> datos = []) /\
  (app lim datos s = Alto aviso_sin_coincidencias <->
   datos <> [] /\ df_filtrado (preprocesar datos) s = []).
Proof.
  destruct (app_casos lim datos s)
    as [[H1 H2]|[[H1 [H2 H3]]|[[H1 [H2 H3]]|[[H1 [H2 [_ H3]]]
                                            |[H1 [H2 [_ [sal H3]]]]]]]];
    rewrite ?H2, ?H3; (split; split);
    try discriminate; try tauto; try (intros [? ?]; congruence);
    try congruence.
  all: intros ->; exfalso; apply H1; now rewrite df_filtrado_es_filter.
Qed.


(** ** The cascade and the filter together *)

Lemma df_filtrado_cascada (df : list Fila) (s : Seleccion) :
  df_filtrado df s
  = restringir col_PRODUCTO (sel_productos s)
      (df_filtrado_cliente df (sel_paises s) (sel_clientes s)).
Proof. reflexivity. Qed.

Lemma lista_no_vacia (A : Type) (l : list A) (x : A) : In x l -> l <> [].
Proof. intros H ->. destruct H. Qed.

(** X6. A selection made of values that the widgets offer always leaves
    data: when something was loaded and every selected country, client and
    product is in the option list its widget shows for that selection, the
    filtered frame is not empty and the run does not stop on a message. *)
Theorem seleccion_ofrecida_da_datos (lim : Limites) (datos : list Registro)
    (s : Seleccion) :
  datos <> [] ->
  ofrecida (preprocesar datos) s ->
  df_filtrado (preprocesar datos) s <> [] /\
  forall m, app lim datos s <> Alto m.
Proof.
  intros Hd [Hp [Hc Hr]].
  assert (Hne : df_filtrado (preprocesar datos) s <> []).
  { rewrite df_filtrado_cascada.
    cbn [cascada o_paises o_clientes o_productos] in Hp, Hc, Hr.
    destruct (sel_productos s) as [|x lx] eqn:Ex.
    - rewrite restringir_vacia. unfold df_filtrado_cliente.
      destruct (sel_clientes s) as [|y ly] eqn:Ey.
      + rewrite restringir_vacia. unfold df_filtrado_pais.
        destruct (sel_paises s) as [|z lz] eqn:Ez.
        * rewrite restringir_vacia. unfold preprocesar.
          intros E. apply map_eq_nil in E. contradiction.
        * specialize (Hp z (or_introl eq_refl)).
          apply opciones_In in Hp. destruct Hp as [f [Hf Hz]].
          apply (@lista_no_vacia _ _ f), restringir_In. split; [exact Hf |].
          right. unfold isin. rewrite Hz. simpl. now rewrite String.eqb_refl.
      + specialize (Hc y (or_introl eq_refl)).
        apply opciones_In in Hc. destruct Hc as [f [Hf Hy]].
        apply (@lista_no_vacia _ _ f), restringir_In. split; [exact Hf |].
        right. unfold isin. rewrite Hy. simpl. now rewrite String.eqb_refl.
    - specialize (Hr x (or_introl eq_refl)).
      apply opciones_In in Hr. destruct Hr as [f [Hf Hx]].
      apply (@lista_no_vacia _ _ f), restringir_In. split; [exact Hf |].
      right. unfold isin. rewrite Hx. simpl. now rewrite String.eqb_refl. }
  split; [exact Hne |].
  intros m E.
  destruct (app_casos lim datos s)
    as [[H1 H2]|[[H1 [H2 H3]]|[[H1 [H2 H3]]|[[H1 [H2 [_ H3]]]
                                            |[H1 [H2 [_ [sal H3]]]]]]]];
    congruence.
Qed.

Lemma seleccion_ofrecida_da_datos_testigo :
  venta_MX :: tres_ventas <> [] /\
  ofrecida (preprocesar (venta_MX :: tres_ventas)) US_y_MX /\
  df_filtrado (preprocesar (venta_MX :: tres_ventas)) US_y_MX <> [].
Proof.
  assert (H1 : venta_MX :: tres_ventas <> []) by discriminate.
  assert (H2 : ofrecida (preprocesar (venta_MX :: tres_ventas)) US_y_MX).
  { unfold ofrecida, incl. simpl. repeat split; tauto. }
  split; [exact H1 |]. split; [exact H2 |].
  exact (proj1 (@seleccion_ofrecida_da_datos limites_ns _ _ H1 H2)).
Defined.

Lemma opciones_incl (col : Fila -> option string) (d d' : list Fila) :
  incl d d' -> incl (opciones col d) (opciones col d').
Proof.
  intros H x Hx. apply opciones_In in Hx. apply opciones_In.
  destruct Hx as [f [Hf E]]. exists f. auto.
Qed.

Lemma restringir_incl (col : Fila -> option string) (sel : list string)
    (d : list Fila) :
  incl (restringir col sel d) d.
Proof. intros f Hf. apply restringir_In in Hf. tauto. Qed.

Lemma restringir_incl_mono (col : Fila -> option string) (sel : list string)
    (d d' : list Fila) :
  incl d d' -> incl (restringir col sel d) (restringir col sel d').
Proof.
  intros H f Hf. apply restringir_In in Hf. apply restringir_In.
  destruct Hf as [Hf Hs]. auto.
Qed.

(** X7. Selecting never adds options: under any selection the clients
    offered are among those offered when nothing is selected, and so are the
    products; and the products offered once clients are selected are among
    those offered for the same countries with no client selected. *)
Theorem cascada_estrecha (df : list Fila) (s : Seleccion) :
  incl (o_clientes (cascada df s)) (o_clientes (cascada df sin_seleccion)) /\
  incl (o_productos (cascada df s)) (o_productos (cascada df sin_seleccion)) /\
  incl (o_productos (cascada df s))
       (o_productos (cascada df (mkSeleccion (sel_paises s) [] []))).
Proof.
  cbn [cascada o_clientes o_productos sin_seleccion sel_paises sel_clientes].
  unfold clientes_disponibles, productos_disponibles, df_filtrado_cliente,
    df_filtrado_pais.
  rewrite !restringir_vacia. split; [| split]; apply opciones_incl.
  - apply restringir_incl.
  - intros f Hf. now apply restringir_incl, restringir_incl in Hf.
  - apply restringir_incl.
Qed.

(** X8. Selecting every country on offer is not the same as selecting none:
    it keeps the rows that have a country and drops those whose country is
    missing; only when no row has a country (nothing is on offer, so nothing
    can be selected) does the frame stay whole. *)
Theorem todos_los_paises_seleccionados (df : list Fila) :
  df_filtrado df (mkSeleccion (todos_paises df) [] [])
  = if hay (todos_paises df) then filter con_pais df else df.
Proof.
  unfold df_filtrado. cbn [sel_paises sel_clientes sel_productos].
  rewrite !restringir_vacia. unfold restringir.
  destruct (hay (todos_paises df)); [| reflexivity].
  apply filter_ext_in. intros f Hf. unfold con_pais.
  destruct (col_PAIS f) as [x|] eqn:E; [| reflexivity].
  unfold isin. apply (pertenece_In String.eqb String.eqb_eq).
  apply opciones_In. eauto.
Qed.

(** ** The order and the groups of the monthly aggregation *)

Lemma clave_leb_total (a b : Z * Z) :
  clave_leb a b = true \/ clave_leb b a = true.
Proof.
  unfold clave_leb.
  rewrite !orb_true_iff, !andb_true_iff, !Z.ltb_lt, !Z.eqb_eq, !Z.leb_le. lia.
Qed.

Lemma clave_leb_trans (a b c : Z * Z) :
  clave_leb a b = true -> clave_leb b c = true -> clave_leb a c = true.
Proof.
  unfold clave_leb.
  rewrite !orb_true_iff, !andb_true_iff, !Z.ltb_lt, !Z.eqb_eq, !Z.leb_le. lia.
Qed.

Lemma clave_leb_antisym (a b : Z * Z) :
  clave_leb a b = true -> clave_leb b a = true -> a = b.
Proof.
  destruct a as [a1 a2], b as [b1 b2]. unfold clave_leb. simpl.
  rewrite !orb_true_iff, !andb_true_iff, !Z.ltb_lt, !Z.eqb_eq, !Z.leb_le.
  intros H1 H2. f_equal; lia.
Qed.

Lemma clave_leb_lt (a b : Z * Z) :
  clave_leb a b = true -> a <> b -> clave_lt a b.
Proof.
  destruct a as [a1 a2], b as [b1 b2]. unfold clave_leb, clave_lt. simpl.
  rewrite !orb_true_iff, !andb_true_iff, !Z.ltb_lt, !Z.eqb_eq, !Z.leb_le.
  intros H Hne.
  destruct (Z.eq_dec a1 b1) as [E1|N1]; [| lia].
  destruct (Z.eq_dec a2 b2) as [E2|N2]; [subst; congruence | lia].
Qed.

Lemma claves_en_orden (d : list Fila) : StronglySorted clave_lt (claves d).
Proof.
  apply StronglySorted_impl
    with (R := fun x y => clave_leb x y = true /\ x <> y).
  - intros x y [H1 H2]. now apply clave_leb_lt.
  - apply ordenado_estricto; [| apply claves_NoDup].
    unfold claves. apply sorted_ordenado.
    + exact clave_leb_total.
    + exact clave_leb_trans.
Qed.

Lemma StronglySorted_map_inv (A B : Type) (g : A -> B) (R : B -> B -> Prop)
    (l : list A) :
  StronglySorted R (map g l) -> StronglySorted (fun x y => R (g x) (g y)) l.
Proof.
  induction l as [|x t IH]; simpl; intros H; [constructor |].
  inversion H as [|? ? Hs Hf]; subst. constructor; [now apply IH |].
  now rewrite Forall_map in Hf.
Qed.

Lemma StronglySorted_map_dir (A B : Type) (g : A -> B) (R : B -> B -> Prop)
    (l : list A) :
  StronglySorted (fun x y => R (g x) (g y)) l -> StronglySorted R (map g l).
Proof.
  induction 1 as [|x t Hs IH Hf]; simpl; constructor; auto.
  now rewrite Forall_map.
Qed.

(** X9. The monthly aggregation comes out in chronological order: its rows
    are strictly ascending by (year, month), each row is dated on the first
    day of its month, and so the dates handed to the chart strictly
    increase. *)
Theorem ventas_en_orden (d : list Fila) :
  let v := ventas_mensuales_agrupadas d in
  StronglySorted clave_lt (map (fun p => (m_Año p, m_Mes p)) v) /\
  Forall (fun p => Fecha_Mes p = mkFecha (m_Año p) (m_Mes p) 1) v /\
  StronglySorted fecha_lt (map Fecha_Mes v).
Proof.
  intros v.
  assert (H1 : StronglySorted clave_lt (map (fun p => (m_Año p, m_Mes p)) v)).
  { unfold v. rewrite ventas_claves. apply claves_en_orden. }
  assert (H2 : Forall (fun p => Fecha_Mes p = mkFecha (m_Año p) (m_Mes p) 1) v).
  { apply Forall_forall. intros p Hp. now apply ventas_In in Hp. }
  split; [exact H1 |]. split; [exact H2 |].
  apply StronglySorted_map_dir. apply StronglySorted_map_inv in H1.
  rewrite Forall_forall in H2.
  clear -H1 H2. induction H1 as [|x t Hs IH Hf]; constructor.
  - apply IH. intros p Hp. apply H2. now right.
  - rewrite Forall_forall in *. intros y Hy.
    rewrite (H2 x) by now left. rewrite (H2 y) by now right.
    specialize (Hf y Hy). unfold clave_lt in Hf. unfold fecha_lt. simpl in *.
    lia.
Qed.

Lemma unique_desde_length (A : Type) (eqb : A -> A -> bool)
    (c vistos : list A) :
  (List.length (unique_desde eqb vistos c) <= List.length c)%nat.
Proof.
  revert vistos. induction c as [|x t IH]; intros vistos; simpl; [lia |].
  destruct (pertenece eqb x vistos); simpl.
  - specialize (IH vistos). lia.
  - specialize (IH (x :: vistos)). lia.
Qed.

Lemma dropna_length (A : Type) (c : list (option A)) :
  (List.length (dropna c) <= List.length c)%nat.
Proof. induction c as [|[x|] t IH]; simpl; lia. Qed.

Lemma en_grupo_clave (k : Z * Z) (f : Fila) :
  en_grupo k f = true <-> clave f = Some k.
Proof.
  unfold en_grupo. destruct (clave f) as [k'|].
  - rewrite clave_eqb_ok. split; congruence.
  - split; discriminate.
Qed.

Lemma clave_partes (f : Fila) (a m : Z) :
  clave f = Some (a, m) <-> Año f = Some a /\ Mes f = Some m.
Proof.
  unfold clave. destruct (Año f) as [a'|], (Mes f) as [m'|];
    split; try discriminate; try (intros [? ?]; discriminate).
  - intros E. injection E as -> ->. auto.
  - intros [E1 E2]. congruence.
Qed.

(** X10. The monthly aggregation has one row for each (year, month) in which
    some row of the filtered frame falls, and for no other; the total of a
    row is the sum of the amounts of exactly the filtered rows of that year
    and month; and there are never more groups than filtered rows. *)
Theorem ventas_por_grupo (d : list Fila) :
  let v := ventas_mensuales_agrupadas d in
  (forall a m,
     (exists p, In p v /\ m_Año p = a /\ m_Mes p = m) <->
     (exists f, In f d /\ Año f = Some a /\ Mes f = Some m)) /\
  Forall (fun p =>
            Ventas_Mensuales p
            = suma_importes (filter (en_grupo (m_Año p, m_Mes p)) d) /\
            forall f, In f (filter (en_grupo (m_Año p, m_Mes p)) d) <->
                      In f d /\ Año f = Some (m_Año p) /\
                      Mes f = Some (m_Mes p)) v /\
  (List.length v <= List.length d)%nat.
Proof.
  intros v. split; [| split].
  - intros a m. split.
    + intros [p [Hp [<- <-]]]. apply ventas_In in Hp.
      destruct Hp as [Hk _]. apply claves_In in Hk.
      destruct Hk as [f [Hf Hk]]. apply clave_partes in Hk. eauto.
    + intros [f [Hf Hk]]. apply clave_partes in Hk.
      assert (Hin : In (a, m) (claves d)) by (apply claves_In; eauto).
      rewrite <- ventas_claves in Hin. apply in_map_iff in Hin.
      destruct Hin as [p [E Hp]]. injection E as Ea Em. eauto.
  - apply Forall_forall. intros p Hp. split.
    + now apply ventas_In in Hp.
    + intros f. now rewrite filter_In, en_grupo_clave, clave_partes.
  - unfold v, ventas_mensuales_agrupadas. rewrite length_map.
    unfold claves.
    rewrite (Permutation_length (sorted_perm clave_leb _)).
    unfold unique.
    eapply Nat.le_trans; [apply unique_desde_length |].
    eapply Nat.le_trans; [apply dropna_length |].
    now rewrite length_map.
Qed.

(** ** The order of the rows in the file *)

Section Canonico.
Variable A : Type.
Variable leb : A -> A -> bool.
Hypothesis leb_total : forall x y, leb x y = true \/ leb y x = true.
Hypothesis leb_trans :
  forall x y z, leb x y = true -> leb y z = true -> leb x z = true.
Hypothesis leb_antisym : forall x y, leb x y = true -> leb y x = true -> x = y.

Lemma ordenados_iguales (l1 l2 : list A) :
  StronglySorted (fun a b => leb a b = true) l1 ->
  StronglySorted (fun a b => leb a b = true) l2 ->
  Permutation l1 l2 -> l1 = l2.
Proof.
  intros H1. revert l2. induction H1 as [|x t Hs IH Hx]; intros l2 H2 Hp.
  - now apply Permutation_nil in Hp.
  - destruct H2 as [|y u Hu Hy].
    + symmetry in Hp. now apply Permutation_nil in Hp.
    + assert (E : x = y).
      { assert (Hxin : In x (y :: u))
          by (apply (Permutation_in _ Hp); now left).
        assert (Hyin : In y (x :: t))
          by (apply (Permutation_in _ (Permutation_sym Hp)); now left).
        rewrite Forall_forall in Hx, Hy.
        destruct Hxin as [->|Hxin]; [reflexivity |].
        destruct Hyin as [->|Hyin]; [reflexivity |].
        apply leb_antisym; auto. }
      subst y. f_equal. apply IH; [exact Hu |].
      now apply Permutation_cons_inv in Hp.
Qed.

Lemma sorted_de_permutacion (l l' : list A) :
  Permutation l l' -> sorted leb l = sorted leb l'.
Proof.
  intros Hp. apply ordenados_iguales.
  - now apply sorted_ordenado.
  - now apply sorted_ordenado.
  - rewrite (sorted_perm leb l), (sorted_perm leb l'). exact Hp.
Qed.

Variable eqb : A -> A -> bool.
Hypothesis eqb_ok : forall x y, eqb x y = true <-> x = y.

Lemma sorted_unique_mismos (l l' : list A) :
  (forall x, In x l <-> In x l') ->
  sorted leb (unique eqb l) = sorted leb (unique eqb l').
Proof.
  intros H. apply sorted_de_permutacion.
  apply NoDup_Permutation; try (apply unique_NoDup; exact eqb_ok).
  intros x. rewrite !(unique_In eqb eqb_ok). apply H.
Qed.
End Canonico.

Lemma str_leb_antisym (x y : string) :
  str_leb x y = true -> str_leb y x = true -> x = y.
Proof.
  rewrite !str_leb_cases. intros [->|H1] [E|H2]; auto.
  exfalso. apply (StrictOrder_Irreflexive x).
  exact (StrictOrder_Transitive _ _ _ H1 H2).
Qed.

Lemma opciones_mismas_filas (col : Fila -> option string) (d d' : list Fila) :
  (forall f, In f d <-> In f d') -> opciones col d = opciones col d'.
Proof.
  intros H. unfold opciones.
  apply (@sorted_unique_mismos _ str_leb str_leb_total str_leb_trans
           str_leb_antisym String.eqb String.eqb_eq).
  intros x. rewrite !dropna_In, !in_map_iff.
  split; intros [f [E Hf]]; exists f; split; auto; now apply H.
Qed.

Lemma claves_mismas_filas (d d' : list Fila) :
  (forall f, In f d <-> In f d') -> claves d = claves d'.
Proof.
  intros H. unfold claves.
  apply (@sorted_unique_mismos _ clave_leb clave_leb_total clave_leb_trans
           clave_leb_antisym clave_eqb clave_eqb_ok).
  intros x. rewrite !dropna_In, !in_map_iff.
  split; intros [f [E Hf]]; exists f; split; auto; now apply H.
Qed.

Lemma filter_permutacion (A : Type) (p : A -> bool) (l l' : list A) :
  Permutation l l' -> Permutation (filter p l) (filter p l').
Proof.
  induction 1 as [| x l l' Hp IH | x y l | l l' l'' H1 IH1 H2 IH2]; simpl.
  - constructor.
  - destruct (p x); [now constructor | exact IH].
  - destruct (p x), (p y); try reflexivity. apply perm_swap.
  - now transitivity (filter p l').
Qed.

Lemma hay_permutacion (A : Type) (l l' : list A) :
  Permutation l l' -> hay l = hay l'.
Proof.
  intros Hp. destruct l as [|x t], l' as [|y u]; try reflexivity.
  - now apply Permutation_nil in Hp.
  - symmetry in Hp. now apply Permutation_nil in Hp.
Qed.

Lemma forallb_permutacion (A : Type) (p : A -> bool) (l l' : list A) :
  Permutation l l' -> forallb p l = forallb p l'.
Proof.
  intros Hp. apply eq_true_iff_eq. rewrite !forallb_forall.
  split; intros H x Hx; apply H.
  - now apply (Permutation_in _ (Permutation_sym Hp)).
  - now apply (Permutation_in _ Hp).
Qed.

Lemma restringir_mismas_filas (col : Fila -> option string)
    (sel : list string) (d d' : list Fila) :
  (forall f, In f d <-> In f d') ->
  forall f, In f (restringir col sel d) <-> In f (restringir col sel d').
Proof.
  intros H f. rewrite !restringir_In, H. tauto.
Qed.

Lemma ventas_fechas (d : list Fila) :
  map (fun p => (m_Año p, m_Mes p, Fecha_Mes p)) (ventas_mensuales_agrupadas d)
  = map (fun k => (fst k, snd k, mkFecha (fst k) (snd k) 1)) (claves d).
Proof.
  unfold ventas_mensuales_agrupadas. rewrite map_map. apply map_ext.
  now intros [a m].
Qed.

Lemma ventas_años (d : list Fila) :
  map m_Año (ventas_mensuales_agrupadas d) = map fst (claves d).
Proof.
  unfold ventas_mensuales_agrupadas. rewrite map_map. apply map_ext.
  now intros [a m].
Qed.

(** X11. The order of the rows in the file changes neither what the widgets
    offer, nor the groups of the monthly aggregation and their dates, nor the
    records of each group, nor the storage types, nor how the run ends: on
    the same message, in an exception, or with a forecast for the same
    months.  (Each total is the sum of the same amounts, taken in the order
    of the file.) *)
Theorem orden_de_las_filas (lim : Limites) (datos datos' : list Registro)
    (s : Seleccion) :
  Permutation datos datos' ->
  let d := df_filtrado (preprocesar datos) s in
  let d' := df_filtrado (preprocesar datos') s in
  cascada (preprocesar datos) s = cascada (preprocesar datos') s /\
  map (fun p => (m_Año p, m_Mes p, Fecha_Mes p)) (ventas_mensuales_agrupadas d)
  = map (fun p => (m_Año p, m_Mes p, Fecha_Mes p))
        (ventas_mensuales_agrupadas d') /\
  (forall k, Permutation (filter (en_grupo k) d) (filter (en_grupo k) d')) /\
  tipos (preprocesar datos) = tipos (preprocesar datos') /\
  (forall m, app lim datos s = Alto m <-> app lim datos' s = Alto m) /\
  (app lim datos s = Excepcion <-> app lim datos' s = Excepcion) /\
  (forall sal, app lim datos s = Listo sal ->
               exists sal', app lim datos' s = Listo sal' /\
                            map p_Fecha_Mes (s_pronostico sal)
                            = map p_Fecha_Mes (s_pronostico sal')).
Proof.
  intros Hp d d'.
  assert (Hdf : Permutation (preprocesar datos) (preprocesar datos'))
    by (now apply Permutation_map).
  assert (Hin : forall f, In f (preprocesar datos) <-> In f (preprocesar datos')).
  { intros f. split; apply Permutation_in; [| symmetry]; exact Hdf. }
  assert (HF : Permutation d d').
  { unfold d, d'. rewrite !df_filtrado_es_filter. now apply filter_permutacion. }
  assert (Hk : claves d = claves d').
  { apply claves_mismas_filas. intros f.
    split; apply Permutation_in; [| symmetry]; exact HF. }
  assert (Ht : tipos (preprocesar datos) = tipos (preprocesar datos')).
  { unfold tipos, columna_entera. f_equal; now apply forallb_permutacion. }
  split; [| split; [| split; [| split; [exact Ht |]]]].
  - unfold cascada, todos_paises, clientes_disponibles, productos_disponibles,
      df_filtrado_cliente, df_filtrado_pais. f_equal.
    + now apply opciones_mismas_filas.
    + now apply opciones_mismas_filas, restringir_mismas_filas.
    + now apply opciones_mismas_filas, restringir_mismas_filas,
        restringir_mismas_filas.
  - now rewrite !ventas_fechas, Hk.
  - intros k. now apply filter_permutacion.
  - assert (Hy : forall e, proximo_ano e (ventas_mensuales_agrupadas d)
                           = proximo_ano e (ventas_mensuales_agrupadas d')).
    { intros e. unfold proximo_ano, ultimo_ano. now rewrite !ventas_años, Hk. }
    unfold app. fold d d'.
    rewrite (hay_permutacion Hp), (hay_permutacion HF).
    rewrite (f_equal fst Ht : columna_entera (preprocesar datos)
                              = columna_entera (preprocesar datos')).
    destruct (hay datos'); cbn [negb];
      [| split; [tauto | split; [tauto | intros sal H; discriminate]]].
    destruct (hay d'); cbn [negb];
      [| split; [tauto | split; [tauto | intros sal H; discriminate]]].
    cbv zeta. unfold pronostico_df. rewrite Hy.
    destruct (meses_futuros lim _) as [fechas|]; cbn [option_map];
      [| split; [tauto | split; [tauto | intros sal H; discriminate]]].
    split; [split; discriminate |]. split; [split; discriminate |].
    intros sal H. injection H as <-. eexists. split; [reflexivity |].
    cbn [s_pronostico]. unfold pronostico_de. now rewrite !map_map.
Qed.

Lemma orden_de_las_filas_testigo :
  Permutation tres_ventas (rev tres_ventas) /\
  cascada (preprocesar tres_ventas) solo_US
  = cascada (preprocesar (rev tres_ventas)) solo_US /\
  (app limites_ns tres_ventas solo_US = Excepcion <->
   app limites_ns (rev tres_ventas) solo_US = Excepcion).
Proof.
  assert (H : Permutation tres_ventas (rev tres_ventas))
    by apply Permutation_rev.
  split; [exact H |].
  destruct (@orden_de_las_filas limites_ns tres_ventas (rev tres_ventas)
              solo_US H)
    as [Hc [_ [_ [_ [_ [He _]]]]]].
  split; [exact Hc | exact He].
Defined.

(** ** The forecast against the history *)




(** ** A single year of data *)

Lemma unico_de_su_clase (A B : Type) (g : A -> B) (c : B) (l : list A)
    (p : A) :
  NoDup (map g l) -> (forall q, In q l -> g q = c) -> In p l -> l = [p].
Proof.
  intros Hn Hc Hp. destruct l as [|a t]; [destruct Hp |].
  simpl in Hn. inversion Hn as [|? ? Ha _]; subst.
  destruct t as [|b u].
  - destruct Hp as [->|[]]. reflexivity.
  - exfalso. apply Ha. left.
    rewrite (Hc a) by now left. apply Hc. right. now left.
Qed.

Lemma mean_de_uno (x : Qc) : mean [x] = x.
Proof.
  unfold mean, Qcdiv. simpl.
  replace (/ de_nat 1)%Qc with 1%Qc by (apply Qc_is_canon; reflexivity).
  rewrite Qcplus_0_r. apply Qcmult_1_r.
Qed.

(** X14. With a single year of history the forecast repeats that year: if
    all the dated rows of the filtered frame fall in one year, the average of
    each calendar month that has a total is that total itself. *)
Theorem un_solo_ano_se_repite (d : list Fila) (y : Z) :
  (forall f a, In f d -> Año f = Some a -> a = y) ->
  let v := ventas_mensuales_agrupadas d in
  Forall (fun p => (1 <= m_Mes p <= 12)%Z ->
                   buscar (m_Mes p) (promedios_por_mes v)
                   = Some (Ventas_Mensuales p)) v.
Proof.
  intros Hy v. apply Forall_forall. intros p Hp Hm.
  rewrite (promedio_buscar v Hm).
  assert (Hg : filter (del_mes (m_Mes p)) v = [p]).
  { apply unico_de_su_clase with (g := m_Año) (c := y).
    - apply del_mes_distintos. unfold v. rewrite ventas_claves.
      apply claves_NoDup.
    - intros q Hq. apply filter_In in Hq. destruct Hq as [Hq _].
      apply ventas_In in Hq. destruct Hq as [Hk _].
      apply claves_In in Hk. destruct Hk as [f [Hf Hk]].
      apply clave_partes in Hk. destruct Hk as [Ha _].
      exact (Hy f _ Hf Ha).
    - apply filter_In. split; [exact Hp |].
      unfold del_mes. apply Z.eqb_refl. }
  rewrite Hg. simpl. now rewrite mean_de_uno.
Qed.

Lemma un_solo_ano_se_repite_testigo :
  (forall f a, In f (preprocesar [venta_MX; venta_sin_pais]) ->
               Año f = Some a -> a = 2024%Z) /\
  Forall (fun p => (1 <= m_Mes p <= 12)%Z ->
                   buscar (m_Mes p)
                     (promedios_por_mes
                        (ventas_mensuales_agrupadas
                           (preprocesar [venta_MX; venta_sin_pais])))
                   = Some (Ventas_Mensuales p))
         (ventas_mensuales_agrupadas (preprocesar [venta_MX; venta_sin_pais])).
Proof.
  assert (H : forall f a, In f (preprocesar [venta_MX; venta_sin_pais]) ->
                          Año f = Some a -> a = 2024%Z).
  { intros f a [<-|[<-|[]]] E; simpl in E; congruence. }
  split; [exact H |].
  exact (@un_solo_ano_se_repite _ _ H).
Defined.

(** ** The tables *)

Lemma nombre_mes_presente (m : Z) :
  (1 <= m <= 12)%Z -> exists n, nombre_mes m = Some n /\ In n nombres_de_meses.
Proof.
  intros H.
  assert (C : (m = 1 \/ m = 2 \/ m = 3 \/ m = 4 \/ m = 5 \/ m = 6 \/
               m = 7 \/ m = 8 \/ m = 9 \/ m = 10 \/ m = 11 \/ m = 12)%Z)
    by lia.
  repeat (destruct C as [->|C]; [eexists; split; [reflexivity | simpl; tauto] |]).
  subst m. eexists; split; [reflexivity | simpl; tauto].
Qed.

Lemma nombre_mes_ausente (m : Z) :
  nombre_mes m = None <-> ~ (1 <= m <= 12)%Z.
Proof.
  split.
  - intros E H. destruct (nombre_mes_presente H) as [n [Hn _]]. congruence.
  - intros H. unfold nombre_mes, mes_a_texto. simpl.
    repeat match goal with
           | |- context [(m =? ?k)%Z] =>
               destruct (Z.eqb_spec m k); [exfalso; lia |]
           end.
    reflexivity.
Qed.

(** X15. The table of averages has twelve rows, January to December in
    calendar order, each month under its name (no name is missing) and each
    with the average of that month, whatever the data. *)
Theorem tabla_promedios_doce_meses (v : list FilaMensual) :
  let t := tabla_promedios (promedios_por_mes v) in
  List.length t = 12%nat /\
  map t_Mes t = map Some nombres_de_meses /\
  map Promedio_Vendido t = map snd (promedios_por_mes v) /\
  map (fun m => buscar m (promedios_por_mes v)) uno_a_doce
  = map (fun r => Some (Promedio_Vendido r)) t.
Proof.
  intros t. unfold t, tabla_promedios. rewrite promedios_tabla.
  rewrite !map_map. cbn [fst snd t_Mes Promedio_Vendido].
  split; [reflexivity |]. split; [reflexivity |]. split; [reflexivity |].
  apply map_ext_in. intros m Hm. rewrite buscar_tabla.
  apply (pertenece_In Z.eqb Z.eqb_eq) in Hm. now rewrite Hm.
Qed.

Lemma insertar_al_frente (A : Type) (leb : A -> A -> bool) (x : A)
    (l : list A) :
  Forall (fun y => leb x y = true) l -> insertar leb x l = x :: l.
Proof.
  intros H. destruct l as [|y t]; [reflexivity |]. simpl.
  inversion H as [|? ? Hy _]; subst. now rewrite Hy.
Qed.

(** Sorting what is already in order changes nothing. *)
Lemma sorted_en_orden (A : Type) (leb : A -> A -> bool) (l : list A) :
  StronglySorted (fun a b => leb a b = true) l -> sorted leb l = l.
Proof.
  induction 1 as [|x t Hs IH Hx]; simpl; [reflexivity |].
  rewrite IH. now apply insertar_al_frente.
Qed.

Lemma clave_lt_leb (a b : Z * Z) : clave_lt a b -> clave_leb a b = true.
Proof.
  unfold clave_lt, clave_leb.
  rewrite orb_true_iff, andb_true_iff, Z.ltb_lt, Z.eqb_eq, Z.leb_le. lia.
Qed.

(** X16. The historical detail shows the rows of the monthly aggregation,
    all of them and in the same order (sorting them by year and month number
    moves nothing, for the aggregation is in that order already), with the
    same years and totals and the month under its name; when the months of
    the filtered rows are calendar months, no name is missing. *)
Theorem detalle_historico_en_orden (d : list Fila) :
  (forall f m, In f d -> Mes f = Some m -> (1 <= m <= 12)%Z) ->
  let v := ventas_mensuales_agrupadas d in
  detalle_historico v
  = map (fun p => {| d_Año := m_Año p;
                     d_Mes := nombre_mes (m_Mes p);
                     Ventas_Mensuales_Totales := Ventas_Mensuales p |}) v /\
  Forall (fun r => exists n, d_Mes r = Some n /\ In n nombres_de_meses)
         (detalle_historico v) /\
  suma (map Ventas_Mensuales_Totales (detalle_historico v))
  = suma (map Ventas_Mensuales v).
Proof.
  intros Hm v.
  assert (E : detalle_historico v
              = map (fun p => {| d_Año := m_Año p;
                                 d_Mes := nombre_mes (m_Mes p);
                                 Ventas_Mensuales_Totales := Ventas_Mensuales p |})
                    v).
  { unfold detalle_historico. rewrite sorted_en_orden.
    - now rewrite map_map.
    - apply StronglySorted_map_dir.
      assert (H : StronglySorted clave_lt
                    (map (fun p => (m_Año p, m_Mes p)) v)).
      { unfold v. rewrite ventas_claves. apply claves_en_orden. }
      apply StronglySorted_map_inv in H.
      eapply StronglySorted_impl; [| exact H].
      intros x y Hxy. unfold detalle_leb. cbn [dn_Año dn_MesNumero].
      now apply clave_lt_leb. }
  split; [exact E |]. rewrite E. split.
  - rewrite Forall_map. apply Forall_forall. intros p Hp.
    cbn [d_Mes]. apply nombre_mes_presente.
    apply ventas_In in Hp. destruct Hp as [Hk _].
    apply claves_In in Hk. destruct Hk as [f [Hf Hk]].
    apply clave_partes in Hk. destruct Hk as [_ Hmes].
    exact (Hm f _ Hf Hmes).
  - now rewrite map_map.
Qed.

Lemma detalle_historico_en_orden_testigo :
  (forall f m, In f (preprocesar tres_ventas) -> Mes f = Some m ->
               (1 <= m <= 12)%Z) /\
  Forall (fun r => exists n, d_Mes r = Some n /\ In n nombres_de_meses)
         (detalle_historico
            (ventas_mensuales_agrupadas (preprocesar tres_ventas))).
Proof.
  assert (H : forall f m, In f (preprocesar tres_ventas) -> Mes f = Some m ->
                          (1 <= m <= 12)%Z).
  { intros f m [<-|[<-|[<-|[]]]] E; simpl in E; injection E as <-; lia. }
  split; [exact H |].
  destruct (@detalle_historico_en_orden (preprocesar tres_ventas) H)
    as [_ [Hn _]].
  exact Hn.
Defined.




(** ** Rows without an amount *)

Lemma claves_con_fila (d1 d2 : list Fila) (f : Fila) (k : Z * Z) :
  clave f = Some k -> In k (claves (d1 ++ f :: d2)).
Proof.
  intros H. apply claves_In. exists f. split; [| exact H].
  apply in_or_app. right. now left.
Qed.

(** X18. A dated row whose amount is missing adds nothing to any total, yet
    its month counts as a month with data: the aggregation has a row for its
    (year, month), and every total is the sum over the other rows alone. *)
Theorem fila_sin_importe (d1 d2 : list Fila) (f : Fila) (a m : Z) :
  TOTAL_VENDIDO (base f) = None ->
  Año f = Some a -> Mes f = Some m ->
  let v := ventas_mensuales_agrupadas (d1 ++ f :: d2) in
  (exists p, In p v /\ m_Año p = a /\ m_Mes p = m) /\
  Forall (fun p => Ventas_Mensuales p
                   = suma_importes (filter (en_grupo (m_Año p, m_Mes p))
                                           (d1 ++ d2))) v.
Proof.
  intros Ht Ha Hm v. split.
  - assert (Hk : In (a, m) (claves (d1 ++ f :: d2))).
    { apply claves_con_fila. now apply clave_partes. }
    rewrite <- ventas_claves in Hk. apply in_map_iff in Hk.
    destruct Hk as [p [E Hp]]. injection E as Ea Em. eauto.
  - apply Forall_forall. intros p Hp. apply ventas_In in Hp.
    destruct Hp as [_ [-> _]].
    rewrite !filter_app, !suma_importes_app. f_equal. simpl.
    destruct (en_grupo (m_Año p, m_Mes p) f); [| reflexivity].
    unfold suma_importes at 1. simpl. unfold importe at 1. rewrite Ht.
    apply Qcplus_0_l.
Qed.

Lemma fila_sin_importe_testigo :
  TOTAL_VENDIDO (base (fila venta_sin_importe)) = None /\
  Año (fila venta_sin_importe) = Some 2024%Z /\
  Mes (fila venta_sin_importe) = Some 1%Z /\
  exists p,
    In p (ventas_mensuales_agrupadas
            (preprocesar tres_ventas ++ fila venta_sin_importe :: [])) /\
    m_Año p = 2024%Z /\ m_Mes p = 1%Z.
Proof.
  assert (H1 : TOTAL_VENDIDO (base (fila venta_sin_importe)) = None)
    by reflexivity.
  assert (H2 : Año (fila venta_sin_importe) = Some 2024%Z) by reflexivity.
  assert (H3 : Mes (fila venta_sin_importe) = Some 1%Z) by reflexivity.
  split; [exact H1 |]. split; [exact H2 |]. split; [exact H3 |].
  exact (proj1 (@fila_sin_importe (preprocesar tres_ventas) []
                  (fila venta_sin_importe) 2024 1 H1 H2 H3)).
Defined.
